(** * Verification of the delivery-bot message pipeline (src/main.py)

    The development embeds the pure core of [src/main.py] -- the price
    classifier [extract_amount], the income ledger [add_income] /
    [get_income_today], the phone validator [is_valid_phone], the field
    extractor [extract_fields] and the dispatcher [handle_message] -- and
    proves the properties of the specification about them.

    Python [str] values are sequences of Unicode code points; they are
    modelled as lists of integers.  The standard-library operations the
    program calls ([str.lower], [str.strip], [str.split], [re.search],
    [re.sub], ...) are modelled in the first part of the file. *)

From Stdlib Require Import ZArith List Bool Lia String Ascii Sorting.Sorted Sorting.Permutation.
From stdpp Require Import base option gmap.
Import ListNotations.

Local Open Scope Z_scope.

(** ** Text *)

(** A Unicode code point. *)
Definition char := Z.

(** A Python [str]. *)
Definition str := list char.

Definition chr_eqb (a b : char) : bool := Z.eqb a b.

Fixpoint str_eqb (a b : str) : bool :=
  match a, b with
  | [], [] => true
  | x :: a', y :: b' => chr_eqb x y && str_eqb a' b'
  | _, _ => false
  end.

(** Decoding of a UTF-8 string literal into its code points; it is only used
    to write the program's string constants the way the source has them. *)
Fixpoint utf8_go (s : string) (need : nat) (acc : Z) : str :=
  match s with
  | EmptyString => []
  | String a s' =>
      let b := Z.of_N (N_of_ascii a) in
      match need with
      | O =>
          if b <? 128 then b :: utf8_go s' 0 0
          else if b <? 224 then utf8_go s' 1 (b - 192)
          else if b <? 240 then utf8_go s' 2 (b - 224)
          else utf8_go s' 3 (b - 240)
      | S O => (acc * 64 + (b - 128)) :: utf8_go s' 0 0
      | S n => utf8_go s' n (acc * 64 + (b - 128))
      end
  end.

Definition u (s : string) : str := utf8_go s 0 0.
Arguments u s%_string.

Definition NEWLINE : char := 10.
Definition QUOTE : char := 34.
Definition PLUS : char := 43.
Definition MINUS : char := 45.
Definition DOT : char := 46.
Definition COLON : char := 58.

(** ** The Unicode character database (version 14.0, CPython 3.11) *)

(** Code points with [str.isspace()], which are also the ones [\s] matches in
    a [str] pattern and the ones [str.strip()] removes. *)
Definition WHITESPACE : list char :=
  [9; 10; 11; 12; 13; 28; 29; 30; 31; 32; 133; 160; 5760;
   8192; 8193; 8194; 8195; 8196; 8197; 8198; 8199; 8200; 8201; 8202;
   8232; 8233; 8239; 8287; 12288].

Definition isspace (c : char) : bool := existsb (chr_eqb c) WHITESPACE.

Definition DECIMAL_RANGES : list (Z * Z) :=
  [
   (48, 57); (1632, 1641); (1776, 1785); (1984, 1993); (2406, 2415);
   (2534, 2543); (2662, 2671); (2790, 2799); (2918, 2927); (3046, 3055);
   (3174, 3183); (3302, 3311); (3430, 3439); (3558, 3567); (3664, 3673);
   (3792, 3801); (3872, 3881); (4160, 4169); (4240, 4249); (6112, 6121);
   (6160, 6169); (6470, 6479); (6608, 6617); (6784, 6793); (6800, 6809);
   (6992, 7001); (7088, 7097); (7232, 7241); (7248, 7257); (42528, 42537);
   (43216, 43225); (43264, 43273); (43472, 43481); (43504, 43513); (43600, 43609);
   (44016, 44025); (65296, 65305); (66720, 66729); (68912, 68921); (69734, 69743);
   (69872, 69881); (69942, 69951); (70096, 70105); (70384, 70393); (70736, 70745);
   (70864, 70873); (71248, 71257); (71360, 71369); (71472, 71481); (71904, 71913);
   (72016, 72025); (72784, 72793); (73040, 73049); (73120, 73129); (92768, 92777);
   (92864, 92873); (93008, 93017); (120782, 120831); (123200, 123209); (123632, 123641);
   (125264, 125273); (130032, 130041)
  ].

(** [\d] in a [str] pattern: the decimal digits of every script (general
    category Nd), given by the inclusive ranges of [DECIMAL_RANGES]. *)
Definition isdigit (c : char) : bool :=
  existsb (fun r => (fst r <=? c) && (c <=? snd r)) DECIMAL_RANGES.

(** Simple lower-case mapping: every run [(first, last, stride, delta)] maps
    the code points [first, first + stride, ..., last] to themselves plus
    [delta]. *)
Definition LOWER_RUNS : list (Z * Z * Z * Z) :=
  [
   (65, 90, 1, 32); (192, 214, 1, 32); (216, 222, 1, 32);
   (256, 302, 2, 1); (306, 310, 2, 1); (313, 327, 2, 1);
   (330, 374, 2, 1); (376, 376, 1, -121); (377, 381, 2, 1);
   (385, 385, 1, 210); (386, 388, 2, 1); (390, 390, 1, 206);
   (391, 391, 1, 1); (393, 394, 1, 205); (395, 395, 1, 1);
   (398, 398, 1, 79); (399, 399, 1, 202); (400, 400, 1, 203);
   (401, 401, 1, 1); (403, 403, 1, 205); (404, 404, 1, 207);
   (406, 406, 1, 211); (407, 407, 1, 209); (408, 408, 1, 1);
   (412, 412, 1, 211); (413, 413, 1, 213); (415, 415, 1, 214);
   (416, 420, 2, 1); (422, 422, 1, 218); (423, 423, 1, 1);
   (425, 425, 1, 218); (428, 428, 1, 1); (430, 430, 1, 218);
   (431, 431, 1, 1); (433, 434, 1, 217); (435, 437, 2, 1);
   (439, 439, 1, 219); (440, 440, 1, 1); (444, 444, 1, 1);
   (452, 452, 1, 2); (453, 453, 1, 1); (455, 455, 1, 2);
   (456, 456, 1, 1); (458, 458, 1, 2); (459, 475, 2, 1);
   (478, 494, 2, 1); (497, 497, 1, 2); (498, 500, 2, 1);
   (502, 502, 1, -97); (503, 503, 1, -56); (504, 542, 2, 1);
   (544, 544, 1, -130); (546, 562, 2, 1); (570, 570, 1, 10795);
   (571, 571, 1, 1); (573, 573, 1, -163); (574, 574, 1, 10792);
   (577, 577, 1, 1); (579, 579, 1, -195); (580, 580, 1, 69);
   (581, 581, 1, 71); (582, 590, 2, 1); (880, 882, 2, 1);
   (886, 886, 1, 1); (895, 895, 1, 116); (902, 902, 1, 38);
   (904, 906, 1, 37); (908, 908, 1, 64); (910, 911, 1, 63);
   (913, 929, 1, 32); (931, 939, 1, 32); (975, 975, 1, 8);
   (984, 1006, 2, 1); (1012, 1012, 1, -60); (1015, 1015, 1, 1);
   (1017, 1017, 1, -7); (1018, 1018, 1, 1); (1021, 1023, 1, -130);
   (1024, 1039, 1, 80); (1040, 1071, 1, 32); (1120, 1152, 2, 1);
   (1162, 1214, 2, 1); (1216, 1216, 1, 15); (1217, 1229, 2, 1);
   (1232, 1326, 2, 1); (1329, 1366, 1, 48); (4256, 4293, 1, 7264);
   (4295, 4295, 1, 7264); (4301, 4301, 1, 7264); (5024, 5103, 1, 38864);
   (5104, 5109, 1, 8); (7312, 7354, 1, -3008); (7357, 7359, 1, -3008);
   (7680, 7828, 2, 1); (7838, 7838, 1, -7615); (7840, 7934, 2, 1);
   (7944, 7951, 1, -8); (7960, 7965, 1, -8); (7976, 7983, 1, -8);
   (7992, 7999, 1, -8); (8008, 8013, 1, -8); (8025, 8031, 2, -8);
   (8040, 8047, 1, -8); (8072, 8079, 1, -8); (8088, 8095, 1, -8);
   (8104, 8111, 1, -8); (8120, 8121, 1, -8); (8122, 8123, 1, -74);
   (8124, 8124, 1, -9); (8136, 8139, 1, -86); (8140, 8140, 1, -9);
   (8152, 8153, 1, -8); (8154, 8155, 1, -100); (8168, 8169, 1, -8);
   (8170, 8171, 1, -112); (8172, 8172, 1, -7); (8184, 8185, 1, -128);
   (8186, 8187, 1, -126); (8188, 8188, 1, -9); (8486, 8486, 1, -7517);
   (8490, 8490, 1, -8383); (8491, 8491, 1, -8262); (8498, 8498, 1, 28);
   (8544, 8559, 1, 16); (8579, 8579, 1, 1); (9398, 9423, 1, 26);
   (11264, 11311, 1, 48); (11360, 11360, 1, 1); (11362, 11362, 1, -10743);
   (11363, 11363, 1, -3814); (11364, 11364, 1, -10727); (11367, 11371, 2, 1);
   (11373, 11373, 1, -10780); (11374, 11374, 1, -10749); (11375, 11375, 1, -10783);
   (11376, 11376, 1, -10782); (11378, 11378, 1, 1); (11381, 11381, 1, 1);
   (11390, 11391, 1, -10815); (11392, 11490, 2, 1); (11499, 11501, 2, 1);
   (11506, 11506, 1, 1); (42560, 42604, 2, 1); (42624, 42650, 2, 1);
   (42786, 42798, 2, 1); (42802, 42862, 2, 1); (42873, 42875, 2, 1);
   (42877, 42877, 1, -35332); (42878, 42886, 2, 1); (42891, 42891, 1, 1);
   (42893, 42893, 1, -42280); (42896, 42898, 2, 1); (42902, 42920, 2, 1);
   (42922, 42922, 1, -42308); (42923, 42923, 1, -42319); (42924, 42924, 1, -42315);
   (42925, 42925, 1, -42305); (42926, 42926, 1, -42308); (42928, 42928, 1, -42258);
   (42929, 42929, 1, -42282); (42930, 42930, 1, -42261); (42931, 42931, 1, 928);
   (42932, 42946, 2, 1); (42948, 42948, 1, -48); (42949, 42949, 1, -42307);
   (42950, 42950, 1, -35384); (42951, 42953, 2, 1); (42960, 42960, 1, 1);
   (42966, 42968, 2, 1); (42997, 42997, 1, 1); (65313, 65338, 1, 32);
   (66560, 66599, 1, 40); (66736, 66771, 1, 40); (66928, 66938, 1, 39);
   (66940, 66954, 1, 39); (66956, 66962, 1, 39); (66964, 66965, 1, 39);
   (68736, 68786, 1, 64); (71840, 71871, 1, 32); (93760, 93791, 1, 32);
   (125184, 125217, 1, 34)
  ].

Fixpoint lower_in (runs : list (Z * Z * Z * Z)) (c : char) : char :=
  match runs with
  | [] => c
  | (first, last, stride, delta) :: runs' =>
      if (first <=? c) && (c <=? last) && ((c - first) mod stride =? 0)
      then c + delta
      else lower_in runs' c
  end.

(** [str.lower()] for one code point.  U+0130 is the only code point whose
    lower case has two code points.  The context rule for a final Greek sigma
    (U+03A3 lowers to U+03C2 at the end of a word) is left out: U+03A3 always
    lowers to U+03C3 here; none of the patterns and keywords of the program
    contains a Greek letter. *)
Definition lower_char (c : char) : str :=
  if c =? 304 then [105; 775] else [lower_in LOWER_RUNS c].

(** ** Methods of [str] *)

(** [s.lower()] *)
Definition lower (s : str) : str := flat_map lower_char s.

(** [s.lstrip()], [s.rstrip()] and [s.strip()] *)
Fixpoint lstrip (s : str) : str :=
  match s with
  | c :: s' => if isspace c then lstrip s' else s
  | [] => []
  end.

Definition rstrip (s : str) : str := rev (lstrip (rev s)).

Definition strip (s : str) : str := rstrip (lstrip s).

(** [s.startswith(p)] *)
Fixpoint startswith (p s : str) : bool :=
  match p, s with
  | [], _ => true
  | a :: p', b :: s' => chr_eqb a b && startswith p' s'
  | _ :: _, [] => false
  end.

(** [p in s] for strings *)
Fixpoint str_in (p s : str) : bool :=
  startswith p s ||
  match s with
  | [] => false
  | _ :: s' => str_in p s'
  end.

(** [s.split(sep)] for a non-empty separator: the pieces between the
    occurrences of [sep], found from left to right without overlap.  [skip]
    counts the characters of an occurrence still to be passed over and [cur]
    holds the current piece, reversed. *)
Fixpoint split_go (sep : str) (skip : nat) (cur : str) (s : str) : list str :=
  match s with
  | [] => [rev cur]
  | c :: s' =>
      match skip with
      | S k => split_go sep k cur s'
      | O =>
          if startswith sep s
          then rev cur :: split_go sep (Nat.pred (length sep)) [] s'
          else split_go sep O (c :: cur) s'
      end
  end.

Definition split (sep s : str) : list str := split_go sep O [] s.

(** [l[-1]] on a non-empty list (the lists of pieces are never empty). *)
Definition last_piece (l : list str) : str := List.last l [].

(** [sep.join(l)] *)
Fixpoint join (sep : str) (l : list str) : str :=
  match l with
  | [] => []
  | [x] => x
  | x :: l' => x ++ sep ++ join sep l'
  end.

(** [s.replace(old, new)] for a non-empty [old]. *)
Fixpoint replace_go (old new : str) (skip : nat) (s : str) : str :=
  match s with
  | [] => []
  | c :: s' =>
      match skip with
      | S k => replace_go old new k s'
      | O =>
          if startswith old s
          then new ++ replace_go old new (Nat.pred (length old)) s'
          else c :: replace_go old new O s'
      end
  end.

Definition replace (old new s : str) : str := replace_go old new O s.

(** [str(n)] for an integer: its decimal digits, with a sign when negative. *)
Fixpoint digits_of_pos (fuel : nat) (n : Z) (acc : str) : str :=
  match fuel with
  | O => acc
  | S fuel' =>
      let acc' := (48 + n mod 10) :: acc in
      if n <? 10 then acc' else digits_of_pos fuel' (n / 10) acc'
  end.

Definition str_of_int (n : Z) : str :=
  if n <? 0 then MINUS :: digits_of_pos (Z.to_nat (- n)) (- n) []
  else digits_of_pos (S (Z.to_nat n)) n [].

(** ** Regular expressions ([re]) *)

(** The fragment of the pattern language the program uses: literal
    characters and character classes, the anchors [^] and [$], sequence,
    alternation, and bounded or unbounded repetition of a character class
    ([\d{1,2}], [\d{7,}], [\d+], [\+?]).  Groups only matter for the match
    object, which the program never inspects. *)
Inductive regex : Type :=
| REmpty : regex
| RClass : (char -> bool) -> regex
| RBol : regex
| REol : regex
| RSeq : regex -> regex -> regex
| RAlt : regex -> regex -> regex
| RRep : (char -> bool) -> nat -> option nat -> regex.

Definition RLit (c : char) : regex := RClass (chr_eqb c).

Fixpoint RStr (s : str) : regex :=
  match s with
  | [] => REmpty
  | c :: s' => RSeq (RLit c) (RStr s')
  end.

(** [$] without [re.MULTILINE]: at the end of the string, or just before a
    newline that ends the string. *)
Definition at_eol (s : str) : bool :=
  match s with
  | [] => true
  | [c] => chr_eqb c NEWLINE
  | _ => false
  end.

Definition below (n : nat) (hi : option nat) : bool :=
  match hi with
  | None => true
  | Some h => Nat.ltb n h
  end.

(** Repetition of a class from the current position: [n] characters have
    been taken so far; the continuation is tried after every admissible
    count. *)
Fixpoint rep_from (p : char -> bool) (lo : nat) (hi : option nat) (n : nat)
    (s : str) (k : bool -> str -> bool) (start : bool) : bool :=
  (Nat.leb lo n && k start s) ||
  match s with
  | c :: s' => below n hi && p c && rep_from p lo hi (S n) s' k false
  | [] => false
  end.

(** Backtracking matcher in continuation-passing style.  [start] tells
    whether the position is the beginning of the whole string, [s] is the
    text from the position on. *)
Fixpoint match_here (r : regex) (start : bool) (s : str)
    (k : bool -> str -> bool) : bool :=
  match r with
  | REmpty => k start s
  | RClass p =>
      match s with
      | c :: s' => p c && k false s'
      | [] => false
      end
  | RBol => start && k start s
  | REol => at_eol s && k start s
  | RSeq a b => match_here a start s (fun st s' => match_here b st s' k)
  | RAlt a b => match_here a start s k || match_here b start s k
  | RRep p lo hi => rep_from p lo hi O s k start
  end.

Definition accept (_ : bool) (_ : str) : bool := true.

Fixpoint search_from (r : regex) (start : bool) (s : str) : bool :=
  match_here r start s accept ||
  match s with
  | [] => false
  | _ :: s' => search_from r false s'
  end.

(** [bool(re.search(r, s))] *)
Definition re_search (r : regex) (s : str) : bool := search_from r true s.

(** [re.sub(cls, '', s)] for a pattern that is one character class: every
    character of the class is deleted. *)
Definition re_sub_delete (cls : char -> bool) (s : str) : str :=
  List.filter (fun c => negb (cls c)) s.

(** [sorted(l, key=key)]: a stable sort, here by insertion.  An element is
    put in front of the already sorted later elements whose key is not
    smaller, so elements with equal keys keep their order. *)
Fixpoint insert_by {A : Type} (key : A -> Z) (x : A) (l : list A) : list A :=
  match l with
  | [] => [x]
  | y :: l' => if key x <=? key y then x :: l else y :: insert_by key x l'
  end.

Definition sorted {A : Type} (key : A -> Z) (l : list A) : list A :=
  fold_right (insert_by key) [] l.

(** * The program *)

(** ** Configuration *)

(** [ALLOWED_CONTEXTS]: chat id to the list of its permitted thread ids. *)
Definition ALLOWED_CONTEXTS : list (Z * list Z) :=
  [ (-1002079167705, [7340]);
    (-1002387655137, [9]);
    (-1002423500927, [4]);
    (-1002178818697, [4]) ].

Fixpoint dict_get {V : Type} (d : list (Z * V)) (k : Z) : option V :=
  match d with
  | [] => None
  | (k', v) :: d' => if k' =? k then Some v else dict_get d' k
  end.

Definition list_mem (x : Z) (l : list Z) : bool := existsb (Z.eqb x) l.

(** The regular expressions that are the keys of [PRICE_MAP]. *)

(** [\+|^-] *)
Definition RE_SIGN : regex := RAlt (RLit PLUS) (RSeq RBol (RLit MINUS)).

(** [мк(\.|$|\s)|МК|Мк|мк] *)
Definition RE_MK : regex :=
  RAlt (RSeq (RStr (u "мк")) (RAlt (RLit DOT) (RAlt REol (RClass isspace))))
       (RAlt (RStr (u "МК")) (RAlt (RStr (u "Мк")) (RStr (u "мк")))).

(** [PRICE_MAP], in the order the dictionary literal lists its items. *)
Definition PRICE_MAP : list (regex * Z) :=
  [ (RE_SIGN, 10);
    (RE_MK, 15);
    (RStr (u "мк доп синяя"), 23);
    (RStr (u "мк доп красная"), 31);
    (RStr (u "мк доп оранжевая"), 40);
    (RStr (u "мк доп салатовая"), 48);
    (RStr (u "мк доп коричневая"), 57);
    (RStr (u "мк доп светло-серая"), 65);
    (RStr (u "мк доп розовая"), 74);
    (RStr (u "мк доп темно-серая"), 82);
    (RStr (u "мк доп голубая"), 91) ].

(** ** Income ledger *)

(** A calendar date [(year, month, day)], the value of
    [datetime.now().date()]. *)
Abbreviation date := (Z * Z * Z)%type.

(** [user_income_storage]: user id to date to total.  Both levels are
    [defaultdict]s: reading a missing key creates it with the default. *)
Abbreviation Storage := (gmap Z (gmap date Z)).

Definition bucket (st : Storage) (user_id : Z) : gmap date Z :=
  default ∅ (st !! user_id).

(** [add_income]; [today] is the date the clock gives at the call.  The
    result is the returned total and the storage after the call. *)
Definition add_income (today : date) (st : Storage) (user_id amount : Z)
    : Z * Storage :=
  let days := bucket st user_id in
  let total := default 0 (days !! today) + amount in
  (total, <[user_id := <[today := total]> days]> st).

(** [get_income_today]: the inner [.get(today, 0)] creates nothing, the outer
    subscript creates the user's empty dictionary when it is missing. *)
Definition get_income_today (today : date) (st : Storage) (user_id : Z)
    : Z * Storage :=
  let days := bucket st user_id in
  (default 0 (days !! today), <[user_id := days]> st).

(** ** Price classifier *)

(** The [for] loop of [extract_amount] over the sorted items. *)
Fixpoint first_match (rules : list (regex * Z)) (text : str) : Z :=
  match rules with
  | [] => 0
  | (pattern, amount) :: rules' =>
      if re_search pattern text then amount else first_match rules' text
  end.

Definition extract_amount (text : str) : Z :=
  let text := lower text in
  first_match (sorted (fun x => - snd x) PRICE_MAP) text.

(** ** Phone validator *)

Definition PHONE_PREFIXES : list str :=
  [u "375"; u "8029"; u "8044"; u "8033"; u "8025"].

Definition is_valid_phone (phone : str) : bool :=
  let phone := re_sub_delete (fun c => negb (isdigit c)) phone in
  existsb (fun p => startswith p phone) PHONE_PREFIXES
  && Nat.leb 9 (length phone).

(** ** Prompt *)

Definition PROMPT_TEMPLATE : str :=
  join [NEWLINE]
    [ [];
      u "Ты помощник службы доставки. Из текста заявки извлеки:";
      [];
      u "1. Временной интервал доставки (или фразу: " ++ [QUOTE]
        ++ u "в ближайшее время" ++ [QUOTE] ++ u ", " ++ [QUOTE]
        ++ u "как можно скорее" ++ [QUOTE] ++ u ")";
      u "2. Адрес с номером дома";
      u "3. Номер телефона";
      u "4. Комментарий заказчика (если есть)";
      [];
      u "Формат ответа:";
      u "[временной интервал]";
      u "[адрес]";
      u "[номер телефона]";
      u "Комментарий заказчика: [если есть]";
      [];
      u "Вот заявка:";
      u "{text}";
      [] ].

(** ** Field extractor *)

(** The dictionary [fields] of [extract_fields]. *)
Record Fields : Type := mkFields {
  interval : str;
  address : str;
  phone : str;
  comment : str
}.

(** [\d{1,2}:\d{2}] *)
Definition RE_TIME : regex :=
  RSeq (RRep isdigit 1 (Some 2%nat)) (RSeq (RLit COLON) (RRep isdigit 2 (Some 2%nat))).

(** [\+?\d{7,}] *)
Definition RE_PHONE : regex :=
  RSeq (RRep (chr_eqb PLUS) 0 (Some 1%nat)) (RRep isdigit 7 None).

(** [\d+] *)
Definition RE_DIGITS : regex := RRep isdigit 1 None.

Definition KW_SOON : str := u "ближайшее".
Definition KW_ASAP : str := u "как можно скорее".
Definition COMMENT_MARKER : str := u "Комментарий заказчика:".

(** The class [[^\d+]]. *)
Definition not_digit_or_plus (c : char) : bool :=
  negb (isdigit c || chr_eqb c PLUS).

(** The body of the loop of [extract_fields]. *)
Definition extract_line (fields : Fields) (line : str) : Fields :=
  if re_search RE_TIME line
     || str_in KW_SOON (lower line)
     || str_in KW_ASAP (lower line)
  then mkFields (strip line) (address fields) (phone fields) (comment fields)
  else if str_in COMMENT_MARKER line
  then mkFields (interval fields) (address fields) (phone fields)
         (strip (last_piece (split COMMENT_MARKER line)))
  else if re_search RE_PHONE line
  then mkFields (interval fields) (address fields)
         (re_sub_delete not_digit_or_plus (strip line)) (comment fields)
  else mkFields (interval fields) (strip line) (phone fields) (comment fields).

Definition extract_fields (text : str) : Fields :=
  let lines := split [NEWLINE] (strip text) in
  fold_left extract_line lines (mkFields [] [] [] []).

(** ** Order validator *)

Inductive ValidationOutcome : Type :=
| Accepted (formatted : str)
| RejectedMissingFields (missing : list str)
| RejectedInvalidPhone.

Definition LABEL_ADDRESS : str := u "адрес с номером дома".
Definition LABEL_INTERVAL : str := u "временной интервал".
Definition LABEL_PHONE : str := u "номер телефона".

(** Truth value of a string: [not s] holds for the empty string only. *)
Definition is_empty (s : str) : bool :=
  match s with
  | [] => true
  | _ :: _ => false
  end.

(** The four-line rendering of an accepted order. *)
Definition format_order (data : Fields) : str :=
  interval data ++ [NEWLINE] ++ address data ++ [NEWLINE] ++ phone data
  ++ [NEWLINE] ++ u "Комментарий заказчика: "
  ++ (if is_empty (comment data) then u "—" else comment data).

(** The checks of [handle_message] on the extracted fields (the block under
    the comment that announces the checks): the list [missing] is built by
    the three [if] statements in turn; the [elif] of the third one leaves
    at once for a phone that is present and not valid. *)
Definition validate (data : Fields) : ValidationOutcome :=
  let missing := [] in
  let missing :=
    if is_empty (address data) || negb (re_search RE_DIGITS (address data))
    then missing ++ [LABEL_ADDRESS] else missing in
  let missing :=
    if is_empty (interval data) then missing ++ [LABEL_INTERVAL] else missing in
  let finish (missing : list str) :=
    match missing with
    | _ :: _ => RejectedMissingFields missing
    | [] => Accepted (format_order data)
    end in
  if is_empty (phone data) then finish (missing ++ [LABEL_PHONE])
  else if negb (is_valid_phone (phone data)) then RejectedInvalidPhone
  else finish missing.

(** ** Dispatcher *)

(** An inbound update: [message.chat_id], [message.message_thread_id]
    ([None] when the chat has no threads), [message.from_user.id] and
    [message.text]. *)
Record Message : Type := mkMessage {
  chat_id : Z;
  message_thread_id : option Z;
  from_user_id : Z;
  text : str
}.

(** What the handler does, in order. *)
Inductive event : Type :=
| Classified (user_text : str) (amount : Z)
| Credited (user_id amount total : Z)
| DirectMessage (user_id : Z) (body : str)
| PromptBuilt (prompt : str)
| CompletionCall (prompt : str)
| Reply (body : str)
| LoggedError.

(** The surroundings of one run of a handler: the date of the clock and
    the behaviour of the three external calls.  [send_message] and
    [reply_text] tell whether the call delivers ([true]) or raises;
    [completion] gives [response.choices[0].message.content], or [None] when
    the call or the access to its result raises. *)
Record World : Type := mkWorld {
  today : date;
  send_message : Z -> str -> bool;
  completion : str -> option str;
  reply_text : str -> bool
}.

(** How a handler ends: it returns, or an exception leaves it. *)
Inductive exit_status : Type :=
| Returned
| Raised.

Record Run : Type := mkRun {
  storage : Storage;
  trace : list event;
  status : exit_status
}.

Definition MSG_INVALID_PHONE : str :=
  u "🚫 Заказ не принят в работу! Причина: номер получателя не соответствует региону осуществления деятельности службы доставки. "
  ++ u "Пожалуйста, пришлите корректный номер телефона в формате +375XXXXXXXXX или своими силами осуществите связь водителя с получателем.".

Definition MSG_MISSING (missing : list str) : str :=
  u "🚫 Заказ не принят в работу! Причина: Не хватает данных для осуществления доставки. "
  ++ u "Пожалуйста, уточните данные и пришлите заявку повторно."
  ++ [NEWLINE; NEWLINE] ++ u "Не хватает: " ++ join (u ", ") missing.

Definition MSG_ACCEPTED (formatted : str) : str :=
  u "✅ Заказ принят в работу:" ++ [NEWLINE] ++ formatted.

Definition MSG_ERROR : str :=
  u "⚠️ Ошибка при обработке заявки. Попробуйте ещё раз.".

Definition MSG_INCOME (amount total_today : Z) : str :=
  u "+" ++ str_of_int amount ++ u " BYN." ++ [NEWLINE] ++ u "Доход: "
  ++ str_of_int total_today ++ u " BYN".

Definition MSG_TODAY (total : Z) : str :=
  u "Ваш доход за сегодня: " ++ str_of_int total ++ u " BYN".

(** The reply of one validation outcome. *)
Definition outcome_reply (o : ValidationOutcome) : str :=
  match o with
  | RejectedInvalidPhone => MSG_INVALID_PHONE
  | RejectedMissingFields missing => MSG_MISSING missing
  | Accepted formatted => MSG_ACCEPTED formatted
  end.

(** The [except Exception] clause of the order path: log, then reply with
    the generic error message; that reply is outside any [try]. *)
Definition on_exception (w : World) (st : Storage) (before : list event) : Run :=
  mkRun st (before ++ [LoggedError; Reply MSG_ERROR])
        (if reply_text w MSG_ERROR then Returned else Raised).

(** [try: ... except: pass] around a call that delivers or raises: the
    handler goes on either way. *)
Definition try_pass (delivered : bool) : exit_status :=
  if delivered then Returned else Returned.

(** [(^|\s)[\+\-]] *)
Definition RE_TRIGGER : regex :=
  RSeq (RAlt RBol (RClass isspace))
       (RClass (fun c => chr_eqb c PLUS || chr_eqb c MINUS)).

(** The part of [handle_message] from the construction of the prompt on. *)
Definition order_path (w : World) (st : Storage) (before : list event)
    (user_text : str) : Run :=
  let prompt := replace (u "{text}") user_text PROMPT_TEMPLATE in
  let before := before ++ [PromptBuilt prompt; CompletionCall prompt] in
  match completion w prompt with
  | None => on_exception w st before
  | Some content =>
      let parsed := strip content in
      let data := extract_fields parsed in
      let body := outcome_reply (validate data) in
      if reply_text w body
      then mkRun st (before ++ [Reply body]) Returned
      else on_exception w st (before ++ [Reply body])
  end.

Definition is_allowed (chat thread_id : Z) : bool :=
  match dict_get ALLOWED_CONTEXTS chat with
  | None => false
  | Some threads => list_mem thread_id threads
  end.

Definition handle_message (w : World) (st : Storage) (message : Message) : Run :=
  let thread_id := default 0 (message_thread_id message) in
  if negb (is_allowed (chat_id message) thread_id) then mkRun st [] Returned
  else
    let user_text := text message in
    if re_search RE_TRIGGER user_text then
      let amount := extract_amount user_text in
      if negb (amount =? 0) then
        let user_id := from_user_id message in
        let '(total_today, st') := add_income (today w) st user_id amount in
        let body := MSG_INCOME amount total_today in
        mkRun st'
          [Classified user_text amount; Credited user_id amount total_today;
           DirectMessage user_id body]
          (try_pass (send_message w user_id body))
      else order_path w st [Classified user_text amount] user_text
    else order_path w st [] user_text.

(** The command handler [handle_dohod]. *)
Definition handle_dohod (w : World) (st : Storage) (user_id : Z) : Run :=
  let '(total, st') := get_income_today (today w) st user_id in
  mkRun st' [Reply (MSG_TODAY total)]
        (if reply_text w (MSG_TODAY total) then Returned else Raised).

(** * Definitions used to state the properties *)

(** The permitted (chat, thread) pairs listed by [ALLOWED_CONTEXTS]. *)
Definition ALLOWED_PAIRS : list (Z * Z) :=
  flat_map (fun entry => map (pair (fst entry)) (snd entry)) ALLOWED_CONTEXTS.

(** A sequence of uses of the ledger, each at the date its call reads from
    the clock. *)
Inductive ledger_op : Type :=
| Credit (day : date) (user_id amount : Z)
| Query (day : date) (user_id : Z).

Definition run_op (st : Storage) (op : ledger_op) : Storage :=
  match op with
  | Credit day user_id amount => snd (add_income day st user_id amount)
  | Query day user_id => snd (get_income_today day st user_id)
  end.

Definition run_ops (st : Storage) (ops : list ledger_op) : Storage :=
  fold_left run_op ops st.

Definition date_eqb (a b : date) : bool :=
  match a, b with
  | (y1, m1, d1), (y2, m2, d2) => (y1 =? y2) && (m1 =? m2) && (d1 =? d2)
  end.

(** The sum of the amounts the sequence credits to one user on one day. *)
Fixpoint credited (day : date) (user_id : Z) (ops : list ledger_op) : Z :=
  match ops with
  | [] => 0
  | Credit day' user_id' amount :: ops' =>
      (if date_eqb day' day && (user_id' =? user_id) then amount else 0)
      + credited day user_id ops'
  | Query _ _ :: ops' => credited day user_id ops'
  end.

(** ** What a regular expression matches

    [denotes r start w rest]: the expression [r] matches the word [w] when
    [w] is followed by [rest] in the subject string; [start] tells whether
    [w] begins at the beginning of the subject.  It is the reading of the
    pattern language, against which the matcher is proved. *)
Definition within (n : nat) (hi : option nat) : Prop :=
  match hi with
  | None => True
  | Some h => (n <= h)%nat
  end.

Fixpoint denotes (r : regex) (start : bool) (w rest : str) : Prop :=
  match r with
  | REmpty => w = []
  | RClass p => exists c, w = [c] /\ p c = true
  | RBol => w = [] /\ start = true
  | REol => w = [] /\ at_eol rest = true
  | RSeq a b =>
      exists w1 w2, w = w1 ++ w2
        /\ denotes a start w1 (w2 ++ rest)
        /\ denotes b (start && is_empty w1) w2 rest
  | RAlt a b => denotes a start w rest \/ denotes b start w rest
  | RRep p lo hi =>
      Forall (fun c => p c = true) w /\ (lo <= length w)%nat
      /\ within (length w) hi
  end.

(** A rule whose pattern is not found in the text. *)
Definition no_match (text : str) (rule : regex * Z) : Prop :=
  re_search (fst rule) text = false.

(** The fields the validator reports as missing, in the words of the
    specification: the address when it is empty or has no digit, the
    interval when it is empty, the phone when it is empty. *)
Definition has_digit (s : str) : bool := existsb isdigit s.

Definition spec_missing (data : Fields) : list str :=
  (if is_empty (address data) || negb (has_digit (address data))
   then [LABEL_ADDRESS] else [])
  ++ (if is_empty (interval data) then [LABEL_INTERVAL] else [])
  ++ (if is_empty (phone data) then [LABEL_PHONE] else []).

(** A run that does nothing after the classification of the text: the
    ledger is the one before, and nothing is built, called or sent. *)
Definition silently_dropped (st : Storage) (r : Run) : Prop :=
  storage r = st
  /\ forall e, In e (trace r) -> exists t a, e = Classified t a.

(** The three ways the order path can go on after the call of the
    completion provider. *)
Definition order_tail (w : World) (tail : list event) (s : exit_status) : Prop :=
  let after_error := if reply_text w MSG_ERROR then Returned else Raised in
  (tail = [LoggedError; Reply MSG_ERROR] /\ s = after_error)
  \/ exists body,
       (tail = [Reply body] /\ s = Returned)
       \/ (tail = [Reply body; LoggedError; Reply MSG_ERROR] /\ s = after_error).

(** Sample surroundings for the examples: a completion in the format the
    prompt asks for, a date, a world whose calls all succeed and one whose
    sends all raise, and a message from user 42 in a permitted thread. *)
Definition sample_completion : str :=
  join [NEWLINE]
    [ u "с 14:00 до 16:00";
      u "ул. Ленина 5";
      u "+375291234567";
      u "Комментарий заказчика: позвонить за 10 минут" ].

Definition sample_day : date := (2024, 5, 17).

Definition quiet_world : World :=
  mkWorld sample_day (fun _ _ => true) (fun _ => Some sample_completion)
          (fun _ => true).

Definition unreachable_world : World :=
  mkWorld sample_day (fun _ _ => false) (fun _ => None) (fun _ => false).

Definition sample_message (t : str) : Message :=
  mkMessage (-1002079167705) (Some 7340) 42 t.

(** ** The field extractor in the words of the specification

    Every line belongs to one field, decided by the first test that holds;
    every field takes its value from the last line that belongs to it, and
    is empty when no line does. *)
Inductive field : Type :=
| FInterval
| FComment
| FPhone
| FAddress.

Definition field_eqb (a b : field) : bool :=
  match a, b with
  | FInterval, FInterval | FComment, FComment
  | FPhone, FPhone | FAddress, FAddress => true
  | _, _ => false
  end.

(** [P] holds of the text from some position on. *)
Fixpoint anywhere (P : str -> bool) (s : str) : bool :=
  P s ||
  match s with
  | [] => false
  | _ :: s' => anywhere P s'
  end.

(** A time of day begins here: one digit, a colon and two digits, or the
    same after one more digit. *)
Definition clock_here (s : str) : bool :=
  match s with
  | h :: c :: m1 :: m2 :: _ =>
      isdigit h && (chr_eqb COLON c && (isdigit m1 && isdigit m2))
  | _ => false
  end.

Definition hhmm_here (s : str) : bool :=
  clock_here s ||
  match s with
  | h :: s' => isdigit h && clock_here s'
  | [] => false
  end.

(** The text begins with [n] digits. *)
Fixpoint leading_digits (n : nat) (s : str) : bool :=
  match n with
  | O => true
  | S n' =>
      match s with
      | c :: s' => isdigit c && leading_digits n' s'
      | [] => false
      end
  end.

(** A run of seven digits or more begins here, after a plus sign or not. *)
Definition phone_here (s : str) : bool :=
  leading_digits 7 s ||
  match s with
  | c :: s' => chr_eqb PLUS c && leading_digits 7 s'
  | [] => false
  end.

Definition spec_field_of (line : str) : field :=
  if anywhere hhmm_here line
     || str_in KW_SOON (lower line) || str_in KW_ASAP (lower line)
  then FInterval
  else if str_in COMMENT_MARKER line then FComment
  else if anywhere phone_here line then FPhone
  else FAddress.

(** The text after the last occurrence of [m] in [s], when there is one. *)
Fixpoint after_last (m s : str) : option str :=
  match s with
  | [] => if is_empty m then Some [] else None
  | _ :: s' =>
      match after_last m s' with
      | Some r => Some r
      | None => if startswith m s then Some (skipn (length m) s) else None
      end
  end.

Definition spec_value (f : field) (line : str) : str :=
  match f with
  | FInterval => strip line
  | FComment => strip (default line (after_last COMMENT_MARKER line))
  | FPhone => List.filter (fun c => isdigit c || chr_eqb c PLUS) (strip line)
  | FAddress => strip line
  end.

(** The value of field [f]: [before] when no line belongs to [f]. *)
Definition spec_slot (before : str) (f : field) (lines : list str) : str :=
  match rev (List.filter (fun l => field_eqb (spec_field_of l) f) lines) with
  | [] => before
  | line :: _ => spec_value f line
  end.

Definition spec_extract_fields (text : str) : Fields :=
  let lines := split [NEWLINE] (strip text) in
  mkFields (spec_slot [] FInterval lines) (spec_slot [] FAddress lines)
           (spec_slot [] FPhone lines) (spec_slot [] FComment lines).

(** Assignment of one field of the record. *)
Definition put (f : field) (v : str) (fields : Fields) : Fields :=
  match f with
  | FInterval => mkFields v (address fields) (phone fields) (comment fields)
  | FAddress => mkFields (interval fields) v (phone fields) (comment fields)
  | FPhone => mkFields (interval fields) (address fields) v (comment fields)
  | FComment => mkFields (interval fields) (address fields) (phone fields) v
  end.

(** ** Definitions for the further properties *)

(** The code points that [lower_in LOWER_RUNS] can send to [x]: [x] itself
    and, for every run, the one that its shift sends to [x]. *)
Definition lower_sources (x : char) : list char :=
  x :: map (fun run => x - snd run) LOWER_RUNS.

(** No code point other than [x] is lowered to [x]. *)
Definition only_from_itself (x : char) : bool :=
  forallb (fun c => (c =? x) || negb (lower_in LOWER_RUNS c =? x))
          (lower_sources x).

(** A sequence of messages handled one after the other, the ledger of one
    run being the ledger the next one starts with. *)
Definition run_messages (w : World) (st : Storage) (messages : list Message)
    : Storage :=
  fold_left (fun st' m => storage (handle_message w st' m)) messages st.

(** The amount one message credits to [user_id]. *)
Definition credit_of (user_id : Z) (m : Message) : Z :=
  if is_allowed (chat_id m) (default 0 (message_thread_id m))
     && re_search RE_TRIGGER (text m)
     && (from_user_id m =? user_id)
  then extract_amount (text m) else 0.

Definition credits_of (user_id : Z) (messages : list Message) : Z :=
  fold_right (fun m acc => credit_of user_id m + acc) 0 messages.

(** The number of fields of a record that are not empty. *)
Definition filled (fields : Fields) : nat :=
  (if is_empty (interval fields) then 0 else 1)
  + (if is_empty (address fields) then 0 else 1)
  + (if is_empty (phone fields) then 0 else 1)
  + (if is_empty (comment fields) then 0 else 1).

(** * Proofs *)

(** ** Income ledger *)

Lemma date_eqb_eq (a b : date) : date_eqb a b = true <-> a = b.
Proof.
  destruct a as [[y1 m1] d1], b as [[y2 m2] d2]; simpl.
  rewrite !andb_true_iff, !Z.eqb_eq. split.
  - intros [[-> ->] ->]; reflexivity.
  - intros H; inversion H; auto.
Qed.

Lemma total_after_add_income (day day' : date) (st : Storage) (user user' amount : Z) :
  fst (get_income_today day (snd (add_income day' st user' amount)) user)
  = fst (get_income_today day st user)
    + (if date_eqb day' day && (user' =? user) then amount else 0).
Proof.
  unfold get_income_today, add_income, bucket; simpl.
  destruct (Z.eqb_spec user' user) as [->|Hu].
  - rewrite lookup_insert_eq; simpl.
    destruct (date_eqb day' day) eqn:Hd; simpl.
    + apply date_eqb_eq in Hd; subst day'.
      rewrite lookup_insert_eq; reflexivity.
    + assert (day' <> day) by (intros ->; rewrite (proj2 (date_eqb_eq day day)) in Hd; congruence).
      rewrite lookup_insert_ne by assumption. lia.
  - rewrite lookup_insert_ne by assumption.
    rewrite andb_false_r. lia.
Qed.

Lemma total_after_query (day day' : date) (st : Storage) (user user' : Z) :
  fst (get_income_today day (snd (get_income_today day' st user')) user)
  = fst (get_income_today day st user).
Proof.
  unfold get_income_today, bucket; simpl.
  destruct (Z.eqb_spec user' user) as [->|Hu].
  - rewrite lookup_insert_eq; reflexivity.
  - rewrite lookup_insert_ne by assumption. reflexivity.
Qed.

Lemma total_after_ops (day : date) (user : Z) (ops : list ledger_op) : forall st : Storage,
  fst (get_income_today day (run_ops st ops) user)
  = fst (get_income_today day st user) + credited day user ops.
Proof.
  induction ops as [|op ops IH]; intros st.
  - unfold run_ops; cbn [fold_left credited]. lia.
  - unfold run_ops; cbn [fold_left]. fold (run_ops (run_op st op) ops).
    rewrite IH. destruct op as [d u a|d u]; cbn [run_op credited].
    + rewrite total_after_add_income. lia.
    + rewrite total_after_query. reflexivity.
Qed.

(** ** The matcher against the reading of patterns *)

Local Ltac close := repeat split; eauto; try lia.

Lemma is_empty_app (a b : str) : is_empty (a ++ b) = is_empty a && is_empty b.
Proof. destruct a; reflexivity. Qed.

Lemma is_empty_true (a : str) : is_empty a = true <-> a = [].
Proof. destruct a; simpl; split; congruence. Qed.

Lemma rep_from_spec p lo hi : forall s n k start,
  rep_from p lo hi n s k start = true <->
  exists w rest, s = w ++ rest /\ Forall (fun c => p c = true) w
    /\ (lo <= n + length w)%nat
    /\ (w = [] \/ within (n + length w) hi)
    /\ k (start && is_empty w) rest = true.
Proof.
  induction s as [|c s IH]; intros n k start; cbn [rep_from].
  - rewrite orb_false_r, andb_true_iff, Nat.leb_le. split.
    + intros [Hlo Hk]. exists [], []. cbn [length is_empty app].
      rewrite andb_true_r, Nat.add_0_r. close.
    + intros (w & rest & Hs & _ & Hlo & _ & Hk).
      symmetry in Hs. apply app_eq_nil in Hs as [-> ->].
      cbn [length is_empty] in *. rewrite andb_true_r in Hk.
      rewrite Nat.add_0_r in Hlo. close.
  - rewrite orb_true_iff, !andb_true_iff, Nat.leb_le, IH. split.
    + intros [[Hlo Hk]|[[Hb Hp] (w & rest & -> & Hall & Hlo & Hhi & Hk)]].
      * exists [], (c :: s). cbn [length is_empty app].
        rewrite andb_true_r, Nat.add_0_r. close.
      * exists (c :: w), rest. cbn [length is_empty app].
        rewrite andb_false_r. rewrite andb_false_l in Hk.
        close.
        right. destruct hi as [h|]; cbn [within below] in *; close.
        apply Nat.ltb_lt in Hb. destruct Hhi as [->|Hhi]; cbn [length] in *; lia.
    + intros (w & rest & Hs & Hall & Hlo & Hhi & Hk).
      destruct w as [|c' w].
      * left. cbn [length is_empty app] in *.
        rewrite andb_true_r in Hk. rewrite Nat.add_0_r in Hlo.
        subst rest. close.
      * right. cbn [app] in Hs. injection Hs as -> ->.
        inversion Hall; subst. cbn [length is_empty] in *.
        rewrite andb_false_r in Hk.
        destruct Hhi as [Hhi|Hhi]; [discriminate|].
        split; [split; auto|].
        -- destruct hi as [h|]; cbn [within below] in *; close.
           apply Nat.ltb_lt. lia.
        -- exists w, rest. rewrite andb_false_l.
           close.
           right. destruct hi; cbn [within] in *; auto; lia.
Qed.

Lemma match_here_spec r : forall start s k,
  match_here r start s k = true <->
  exists w rest, s = w ++ rest /\ denotes r start w rest
    /\ k (start && is_empty w) rest = true.
Proof.
  induction r as [|p| | |a IHa b IHb|a IHa b IHb|p lo hi];
    intros start s k; cbn [match_here denotes].
  - split.
    + intros Hk. exists [], s. cbn [is_empty app]. rewrite andb_true_r. close.
    + intros (w & rest & -> & -> & Hk). cbn [is_empty app] in Hk.
      rewrite andb_true_r in Hk. exact Hk.
  - destruct s as [|c s].
    + split; [discriminate|].
      intros (w & rest & Hs & (c & -> & _) & _). discriminate.
    + rewrite andb_true_iff. split.
      * intros [Hp Hk]. exists [c], s. cbn [is_empty app].
        rewrite andb_false_r. eauto.
      * intros (w & rest & Hs & (c' & -> & Hp) & Hk).
        cbn [app is_empty] in *. injection Hs as -> ->.
        rewrite andb_false_r in Hk. close.
  - rewrite andb_true_iff. split.
    + intros [-> Hk]. exists [], s. cbn [is_empty app andb]. close.
    + intros (w & rest & -> & [-> ->] & Hk). cbn [is_empty app andb] in Hk. close.
  - rewrite andb_true_iff. split.
    + intros [He Hk]. exists [], s. cbn [is_empty app].
      rewrite andb_true_r. close.
    + intros (w & rest & -> & [-> He] & Hk). cbn [is_empty app] in *.
      rewrite andb_true_r in Hk. close.
  - rewrite IHa. split.
    + intros (w1 & rest1 & -> & Ha & Hb).
      apply IHb in Hb as (w2 & rest & -> & Hb & Hk).
      exists (w1 ++ w2), rest. rewrite <- app_assoc, is_empty_app, andb_assoc.
      split; [reflexivity|]. split; [|assumption]. exists w1, w2. close.
    + intros (w & rest & -> & (w1 & w2 & -> & Ha & Hb) & Hk).
      exists w1, (w2 ++ rest). rewrite <- app_assoc.
      split; [reflexivity|]. split; [assumption|].
      apply IHb. exists w2, rest. split; [reflexivity|]. split; [assumption|].
      rewrite is_empty_app, andb_assoc in Hk. exact Hk.
  - rewrite orb_true_iff, IHa, IHb. split.
    + intros [(w & rest & ? & ? & ?)|(w & rest & ? & ? & ?)];
        exists w, rest; close.
    + intros (w & rest & ? & [?|?] & ?); [left|right]; exists w, rest; close.
  - rewrite rep_from_spec. split.
    + intros (w & rest & -> & Hall & Hlo & Hhi & Hk).
      exists w, rest. repeat split; close.
      destruct Hhi as [->|Hhi]; close.
      destruct hi; cbn [within length]; auto; lia.
    + intros (w & rest & -> & (Hall & Hlo & Hhi) & Hk).
      exists w, rest. repeat split; close.
Qed.

Lemma search_from_spec r : forall s start,
  search_from r start s = true <->
  exists pre w rest, s = pre ++ w ++ rest
    /\ denotes r (start && is_empty pre) w rest.
Proof.
  induction s as [|c s IH]; intros start; cbn [search_from];
    rewrite orb_true_iff, match_here_spec.
  - split.
    + intros [(w & rest & Hs & Hd & _)|]; [|discriminate].
      exists [], w, rest. cbn [is_empty app]. rewrite andb_true_r. close.
    + intros (pre & w & rest & Hs & Hd). left.
      symmetry in Hs. apply app_eq_nil in Hs as [-> Hs].
      cbn [is_empty] in Hd. rewrite andb_true_r in Hd.
      exists w, rest. close.
  - rewrite IH. split.
    + intros [(w & rest & Hs & Hd & _)|(pre & w & rest & -> & Hd)].
      * exists [], w, rest. cbn [is_empty app]. rewrite andb_true_r. close.
      * exists (c :: pre), w, rest. cbn [is_empty app].
        rewrite andb_false_r. cbn [andb] in Hd. close.
    + intros (pre & w & rest & Hs & Hd). destruct pre as [|c' pre].
      * left. cbn [is_empty app] in *. rewrite andb_true_r in Hd.
        exists w, rest. close.
      * right. cbn [app is_empty] in *. injection Hs as -> ->.
        rewrite andb_false_r in Hd. exists pre, w, rest. close.
Qed.

(** [re.search] finds a match that begins anywhere in the subject. *)
Lemma re_search_spec r s :
  re_search r s = true <->
  exists pre w rest, s = pre ++ w ++ rest /\ denotes r (is_empty pre) w rest.
Proof. unfold re_search. rewrite search_from_spec. reflexivity. Qed.

(** ** Strings *)

Lemma chr_eqb_eq (a b : char) : chr_eqb a b = true <-> a = b.
Proof. apply Z.eqb_eq. Qed.

Lemma startswith_spec (p : str) : forall s : str,
  startswith p s = true <-> exists rest, s = p ++ rest.
Proof.
  induction p as [|a p IH]; intros s; cbn [startswith].
  - split; eauto.
  - destruct s as [|b s].
    + split; [discriminate|]. intros [rest H]. discriminate.
    + rewrite andb_true_iff, chr_eqb_eq, IH. split.
      * intros [-> [rest ->]]. eauto.
      * intros [rest H]. injection H as -> ->. eauto.
Qed.

Lemma str_in_spec (p : str) : forall s : str,
  str_in p s = true <-> exists pre suf, s = pre ++ p ++ suf.
Proof.
  induction s as [|c s IH]; cbn [str_in]; rewrite orb_true_iff, startswith_spec.
  - split.
    + intros [[rest H]|]; [|discriminate]. exists [], rest. exact H.
    + intros (pre & suf & H). left. destruct pre as [|? ?]; [|discriminate].
      eauto.
  - rewrite IH. split.
    + intros [[rest H]|(pre & suf & ->)].
      * exists [], rest. exact H.
      * exists (c :: pre), suf. reflexivity.
    + intros (pre & suf & H). destruct pre as [|c' pre].
      * left. eauto.
      * right. injection H as -> ->. eauto.
Qed.

Lemma denotes_RStr (p : str) : forall start w rest,
  denotes (RStr p) start w rest <-> w = p.
Proof.
  induction p as [|c p IH]; intros start w rest; cbn [RStr denotes].
  - reflexivity.
  - unfold RLit; cbn [denotes]. split.
    + intros (w1 & w2 & -> & (c' & -> & Hc) & Hp).
      apply chr_eqb_eq in Hc. apply IH in Hp. subst. reflexivity.
    + intros ->. exists [c], p. repeat split.
      * exists c. split; [reflexivity|]. apply chr_eqb_eq. reflexivity.
      * apply IH. reflexivity.
Qed.

(** A pattern without special characters is found exactly where it occurs
    as a substring. *)
Lemma re_search_RStr (p s : str) : re_search (RStr p) s = str_in p s.
Proof.
  apply eq_true_iff_eq. rewrite re_search_spec, str_in_spec. split.
  - intros (pre & w & rest & -> & Hd). apply denotes_RStr in Hd. subst. eauto.
  - intros (pre & suf & ->). exists pre, p, suf. split; [reflexivity|].
    apply denotes_RStr. reflexivity.
Qed.

(** ** Sorting *)

Section Sorting.
Context {A : Type} (key : A -> Z).

Lemma insert_by_Permutation x l : Permutation (x :: l) (insert_by key x l).
Proof.
  induction l as [|y l IH]; cbn [insert_by].
  - reflexivity.
  - destruct (key x <=? key y); [reflexivity|].
    rewrite perm_swap. constructor. exact IH.
Qed.

Lemma sorted_Permutation l : Permutation l (sorted key l).
Proof.
  induction l as [|x l IH]; cbn [sorted fold_right].
  - constructor.
  - rewrite <- insert_by_Permutation. constructor. exact IH.
Qed.

Lemma insert_by_StronglySorted x l :
  StronglySorted (fun a b => key a <= key b) l ->
  StronglySorted (fun a b => key a <= key b) (insert_by key x l).
Proof.
  induction 1 as [|y l Hs IH Hy]; cbn [insert_by].
  - repeat constructor.
  - destruct (Z.leb_spec (key x) (key y)) as [Hle|Hgt].
    + constructor; [constructor; assumption|].
      constructor; [assumption|].
      eapply List.Forall_impl; [|exact Hy]. cbv beta. intros; lia.
    + constructor; [assumption|].
      eapply Permutation_Forall; [apply insert_by_Permutation|].
      constructor; [lia|assumption].
Qed.

Lemma sorted_StronglySorted l :
  StronglySorted (fun a b => key a <= key b) (sorted key l).
Proof.
  induction l as [|x l IH]; cbn [sorted fold_right].
  - constructor.
  - apply insert_by_StronglySorted. exact IH.
Qed.
End Sorting.

(** ** Price classifier *)

Lemma first_match_cases rules text :
  (exists before pattern amount after,
      rules = before ++ (pattern, amount) :: after
      /\ Forall (no_match text) before
      /\ re_search pattern text = true
      /\ first_match rules text = amount)
  \/ (Forall (no_match text) rules /\ first_match rules text = 0).
Proof.
  induction rules as [|[p a] rules IH]; cbn [first_match].
  - right. split; [constructor|reflexivity].
  - destruct (re_search p text) eqn:Hp.
    + left. exists [], p, a, rules. repeat split; auto.
    + destruct IH as [(before & p' & a' & after & -> & Hb & Hp' & Hr)|[Hall Hr]].
      * left. exists ((p, a) :: before), p', a', after.
        split; [reflexivity|]. split; [constructor; assumption|]. split; assumption.
      * right. split; [constructor; assumption|assumption].
Qed.

Lemma first_match_max rules text pattern amount :
  StronglySorted (fun x y => snd x >= snd y) rules ->
  In (pattern, amount) rules ->
  re_search pattern text = true ->
  amount <= first_match rules text.
Proof.
  induction 1 as [|[p a] rules Hs IH Hhd]; intros Hin Hm; cbn [first_match].
  - destruct Hin.
  - destruct Hin as [Heq|Hin].
    + injection Heq as -> ->. rewrite Hm. lia.
    + destruct (re_search p text).
      * rewrite List.Forall_forall in Hhd. specialize (Hhd _ Hin). cbn in Hhd. lia.
      * apply IH; assumption.
Qed.

Lemma sorted_PRICE_MAP : sorted (fun x => - snd x) PRICE_MAP = rev PRICE_MAP.
Proof. reflexivity. Qed.

Lemma price_rules_descending :
  StronglySorted (fun x y => snd x >= snd y) (sorted (fun x => - snd x) PRICE_MAP).
Proof.
  pose proof (sorted_StronglySorted (fun x : regex * Z => - snd x) PRICE_MAP) as H.
  induction H as [|x l Hs IH Hx]; constructor; [assumption|].
  eapply List.Forall_impl; [|exact Hx]. cbv beta. intros; lia.
Qed.

Lemma extract_amount_max text pattern amount :
  In (pattern, amount) PRICE_MAP ->
  re_search pattern (lower text) = true ->
  amount <= extract_amount text.
Proof.
  intros Hin Hm. unfold extract_amount.
  apply (first_match_max _ _ pattern); [apply price_rules_descending| |exact Hm].
  eapply Permutation_in; [apply sorted_Permutation|exact Hin].
Qed.

Lemma re_search_RE_SIGN (s : str) :
  re_search RE_SIGN s = true <-> In PLUS s \/ exists s', s = MINUS :: s'.
Proof.
  rewrite re_search_spec. unfold RE_SIGN, RLit; cbn [denotes]. split.
  - intros (pre & w & rest & -> & [(c & -> & Hc)|(w1 & w2 & -> & [-> Hst] & (c & -> & Hc))]);
      apply chr_eqb_eq in Hc; subst c.
    + left. apply in_elt.
    + right. cbn [is_empty andb] in Hst. apply is_empty_true in Hst. subst pre.
      eauto.
  - intros [Hin|[s' ->]].
    + apply in_split in Hin as (pre & rest & ->).
      exists pre, [PLUS], rest. split; [reflexivity|]. left.
      exists PLUS. split; [reflexivity|]. apply chr_eqb_eq. reflexivity.
    + exists [], [MINUS], s'. split; [reflexivity|]. right.
      exists [], [MINUS]. repeat split.
      exists MINUS. split; [reflexivity|]. apply chr_eqb_eq. reflexivity.
Qed.

Lemma re_search_RE_TRIGGER (s : str) :
  re_search RE_TRIGGER s = true <->
  exists pre c suf, s = pre ++ c :: suf /\ (c = PLUS \/ c = MINUS)
    /\ (pre = [] \/ exists pre' sp, pre = pre' ++ [sp] /\ isspace sp = true).
Proof.
  rewrite re_search_spec. unfold RE_TRIGGER; cbn [denotes]. split.
  - intros (pre & w & rest & -> & (w1 & w2 & -> & Hw1 & (c & -> & Hc))).
    apply orb_true_iff in Hc. rewrite !chr_eqb_eq in Hc.
    assert (Hc' : c = PLUS \/ c = MINUS) by (destruct Hc; auto).
    destruct Hw1 as [[-> Hst]|(sp & -> & Hsp)].
    + apply is_empty_true in Hst. subst pre. exists [], c, rest. auto.
    + exists (pre ++ [sp]), c, rest. rewrite <- !app_assoc.
      split; [reflexivity|]. split; [assumption|]. right. eauto.
  - intros (pre & c & suf & -> & Hc & Hpre).
    assert (Hcb : chr_eqb c PLUS || chr_eqb c MINUS = true).
    { apply orb_true_iff. rewrite !chr_eqb_eq. destruct Hc; auto. }
    destruct Hpre as [->|(pre' & sp & -> & Hsp)].
    + exists [], [c], suf. split; [reflexivity|].
      exists [], [c]. repeat split; eauto.
    + exists pre', [sp; c], suf. rewrite <- app_assoc. split; [reflexivity|].
      exists [sp], [c]. repeat split; eauto.
Qed.

Lemma lower_cons (c : char) (s : str) : lower (c :: s) = lower_char c ++ lower s.
Proof. reflexivity. Qed.

Lemma lower_keeps_plus (s : str) : In PLUS s -> In PLUS (lower s).
Proof.
  intros Hin. unfold lower. apply in_flat_map. exists PLUS.
  split; [assumption|]. left. reflexivity.
Qed.

Lemma lower_keeps_leading_minus (s : str) :
  lower (MINUS :: s) = MINUS :: lower s.
Proof. reflexivity. Qed.

(** A text with a plus sign, or with a leading minus sign, is matched by
    the rule of amount 10 whatever else it holds. *)
Lemma sign_rule_matches (text : str) :
  In PLUS text \/ (exists s, text = MINUS :: s) ->
  re_search RE_SIGN (lower text) = true.
Proof.
  intros H. apply re_search_RE_SIGN. destruct H as [H|[s ->]].
  - left. apply lower_keeps_plus. exact H.
  - right. rewrite lower_keeps_leading_minus. eauto.
Qed.

Lemma sign_rule_amount (text : str) :
  In PLUS text \/ (exists s, text = MINUS :: s) ->
  10 <= extract_amount text.
Proof.
  intros H. apply (extract_amount_max text RE_SIGN).
  - left. reflexivity.
  - apply sign_rule_matches. exact H.
Qed.

(** ** Access filter *)

Lemma is_allowed_spec (chat thread : Z) :
  is_allowed chat thread = true <-> In (chat, thread) ALLOWED_PAIRS.
Proof.
  unfold is_allowed, ALLOWED_PAIRS, ALLOWED_CONTEXTS, list_mem.
  cbn [dict_get flat_map map fst snd app In existsb].
  repeat match goal with
         | |- context [?a =? chat] => destruct (Z.eqb_spec a chat) as [<-|?]
         end; cbn [existsb]; rewrite ?orb_false_r, ?Z.eqb_eq.
  all: split; intros H.
  all: repeat match goal with
              | H : _ \/ _ |- _ => destruct H as [H|H]
              | H : (_, _) = (_, _) |- _ => injection H as ? ?
              | H : False |- _ => destruct H
              end; subst; try discriminate; try congruence; auto 10.
Qed.

(** ** Dispatcher *)

Lemma on_exception_run (w : World) (st : Storage) (before : list event) :
  on_exception w st before
  = mkRun st (before ++ [LoggedError; Reply MSG_ERROR])
          (if reply_text w MSG_ERROR then Returned else Raised).
Proof. reflexivity. Qed.

(** The order path leaves the ledger alone, builds the prompt from the
    template and the text, calls the provider once and replies. *)
Lemma order_path_run (w : World) (st : Storage) (before : list event) (user_text : str) :
  let prompt := replace (u "{text}") user_text PROMPT_TEMPLATE in
  storage (order_path w st before user_text) = st
  /\ exists tail,
       trace (order_path w st before user_text)
       = before ++ [PromptBuilt prompt; CompletionCall prompt] ++ tail
       /\ order_tail w tail (status (order_path w st before user_text)).
Proof.
  intros prompt. unfold order_path. fold prompt.
  destruct (completion w prompt) as [content|].
  - set (body := outcome_reply (validate (extract_fields (strip content)))).
    destruct (reply_text w body) eqn:Hr.
    + split; [reflexivity|]. exists [Reply body]. cbn [trace status].
      split; [rewrite <- app_assoc; reflexivity|].
      right. exists body. left. split; reflexivity.
    + rewrite on_exception_run. split; [reflexivity|].
      exists [Reply body; LoggedError; Reply MSG_ERROR]. cbn [trace status].
      split; [rewrite <- !app_assoc; reflexivity|].
      right. exists body. right. split; reflexivity.
  - rewrite on_exception_run. split; [reflexivity|].
    exists [LoggedError; Reply MSG_ERROR]. cbn [trace status].
    split; [rewrite <- !app_assoc; reflexivity|].
    left. split; reflexivity.
Qed.

Lemma handle_message_not_allowed (w : World) (st : Storage) (m : Message) :
  is_allowed (chat_id m) (default 0 (message_thread_id m)) = false ->
  handle_message w st m = mkRun st [] Returned.
Proof. intros H. unfold handle_message. rewrite H. reflexivity. Qed.

Lemma handle_message_order (w : World) (st : Storage) (m : Message) :
  is_allowed (chat_id m) (default 0 (message_thread_id m)) = true ->
  re_search RE_TRIGGER (text m) = false ->
  handle_message w st m = order_path w st [] (text m).
Proof. intros Ha Ht. unfold handle_message. rewrite Ha, Ht. reflexivity. Qed.

Lemma handle_message_zero (w : World) (st : Storage) (m : Message) :
  is_allowed (chat_id m) (default 0 (message_thread_id m)) = true ->
  re_search RE_TRIGGER (text m) = true ->
  extract_amount (text m) = 0 ->
  handle_message w st m = order_path w st [Classified (text m) 0] (text m).
Proof.
  intros Ha Ht Hz. unfold handle_message. rewrite Ha, Ht, Hz. reflexivity.
Qed.

Lemma handle_message_income (w : World) (st : Storage) (m : Message) :
  is_allowed (chat_id m) (default 0 (message_thread_id m)) = true ->
  re_search RE_TRIGGER (text m) = true ->
  extract_amount (text m) <> 0 ->
  let amount := extract_amount (text m) in
  let user_id := from_user_id m in
  let total := fst (add_income (today w) st user_id amount) in
  handle_message w st m
  = mkRun (snd (add_income (today w) st user_id amount))
          [Classified (text m) amount; Credited user_id amount total;
           DirectMessage user_id (MSG_INCOME amount total)]
          Returned.
Proof.
  intros Ha Ht Hz. unfold handle_message. rewrite Ha, Ht.
  apply Z.eqb_neq in Hz. rewrite Hz. cbn [negb].
  destruct (add_income (today w) st (from_user_id m) (extract_amount (text m)))
    as [total st'] eqn:E.
  cbn [fst snd]. unfold try_pass.
  destruct (send_message w (from_user_id m) _); reflexivity.
Qed.

(** C9.  A message whose (chat, thread) pair, with the thread taken as 0
    when the platform reports none, is not among the permitted pairs ends
    the handler at once: the run has no event at all (no classification, no
    credit, no prompt, no provider call, no reply), the ledger is the one
    before, and the handler returns normally. *)
Theorem disallowed_context_ignored (w : World) (st : Storage) (m : Message) :
  ~ In (chat_id m, default 0 (message_thread_id m)) ALLOWED_PAIRS ->
  handle_message w st m = mkRun st [] Returned.
Proof.
  intros Hnot. apply handle_message_not_allowed.
  destruct (is_allowed _ _) eqn:H; [|reflexivity].
  apply is_allowed_spec in H. contradiction.
Qed.

Lemma disallowed_context_ignored_witness :
  ~ In (chat_id (mkMessage 12345 None 42 (u "+ мк")),
        default 0 (message_thread_id (mkMessage 12345 None 42 (u "+ мк"))))
       ALLOWED_PAIRS
  /\ handle_message quiet_world ∅ (mkMessage 12345 None 42 (u "+ мк"))
     = mkRun ∅ [] Returned.
Proof.
  assert (H : ~ In (chat_id (mkMessage 12345 None 42 (u "+ мк")),
                    default 0 (message_thread_id (mkMessage 12345 None 42 (u "+ мк"))))
                   ALLOWED_PAIRS).
  { vm_compute. intros H.
    repeat (destruct H as [H|H]; [discriminate H|]). exact H. }
  split; [exact H|].
  exact (disallowed_context_ignored quiet_world ∅ _ H).
Defined.

(** C1, as the program behaves.  In a permitted context, a text that has
    the sign token and for which the classifier gives 0 is not dropped: no
    income is credited and no direct message is attempted, and the handler
    goes on into the order path exactly as for a text without the token
    (only the classification comes first): the prompt is built from the
    template and the text, the provider is called once, and the outcome is
    replied (or the error reply is sent).  The ledger is left as it was. *)
Theorem zero_amount_falls_through (w : World) (st : Storage) (m : Message) :
  is_allowed (chat_id m) (default 0 (message_thread_id m)) = true ->
  re_search RE_TRIGGER (text m) = true ->
  extract_amount (text m) = 0 ->
  let r := handle_message w st m in
  let prompt := replace (u "{text}") (text m) PROMPT_TEMPLATE in
  r = order_path w st [Classified (text m) 0] (text m)
  /\ storage r = st
  /\ exists tail,
       trace r = [Classified (text m) 0; PromptBuilt prompt; CompletionCall prompt] ++ tail
       /\ order_tail w tail (status r)
       /\ trace (order_path w st [] (text m))
          = [PromptBuilt prompt; CompletionCall prompt] ++ tail.
Proof.
  intros Ha Ht Hz r prompt.
  assert (Hr : r = order_path w st [Classified (text m) 0] (text m))
    by (apply handle_message_zero; assumption).
  split; [exact Hr|]. rewrite Hr. clear Hr r.
  unfold order_path. fold prompt.
  destruct (completion w prompt) as [content|].
  - set (body := outcome_reply (validate (extract_fields (strip content)))).
    destruct (reply_text w body) eqn:Hb.
    + split; [reflexivity|]. exists [Reply body]. cbn [trace status app].
      repeat split. right. exists body. left. split; reflexivity.
    + rewrite !on_exception_run. split; [reflexivity|].
      exists [Reply body; LoggedError; Reply MSG_ERROR]. cbn [trace status app].
      repeat split. right. exists body. right. split; reflexivity.
  - rewrite !on_exception_run. split; [reflexivity|].
    exists [LoggedError; Reply MSG_ERROR]. cbn [trace status app].
    repeat split. left. split; reflexivity.
Qed.

Lemma zero_amount_falls_through_witness :
  let m := sample_message (u "ул. Ленина 5 - завтра") in
  is_allowed (chat_id m) (default 0 (message_thread_id m)) = true
  /\ re_search RE_TRIGGER (text m) = true
  /\ extract_amount (text m) = 0
  /\ handle_message quiet_world ∅ m
     = order_path quiet_world ∅ [Classified (text m) 0] (text m)
  /\ storage (handle_message quiet_world ∅ m) = ∅.
Proof.
  intros m.
  assert (Ha : is_allowed (chat_id m) (default 0 (message_thread_id m)) = true)
    by reflexivity.
  assert (Ht : re_search RE_TRIGGER (text m) = true) by reflexivity.
  assert (Hz : extract_amount (text m) = 0) by reflexivity.
  destruct (zero_amount_falls_through quiet_world ∅ m Ha Ht Hz)
    as (Hrun & Hst & _).
  repeat split; assumption.
Defined.

(** C1, as the claim states it, fails: with the text below, which has a
    minus sign after a space and matches no price rule, the handler calls
    the provider and replies that the order is accepted. *)
Lemma zero_amount_not_silent :
  let m := sample_message (u "ул. Ленина 5 - завтра") in
  is_allowed (chat_id m) (default 0 (message_thread_id m)) = true
  /\ re_search RE_TRIGGER (text m) = true
  /\ extract_amount (text m) = 0
  /\ ~ silently_dropped ∅ (handle_message quiet_world ∅ m).
Proof.
  intros m. repeat split; try reflexivity.
  intros [_ Hsilent].
  destruct (Hsilent (Reply (MSG_ACCEPTED (format_order (extract_fields sample_completion)))))
    as (t & a & Heq); [|discriminate Heq].
  vm_compute. do 3 right. left. reflexivity.
Qed.

Lemma handle_dohod_run (w : World) (st : Storage) (user_id : Z) :
  handle_dohod w st user_id
  = mkRun (snd (get_income_today (today w) st user_id))
          [Reply (MSG_TODAY (fst (get_income_today (today w) st user_id)))]
          (if reply_text w (MSG_TODAY (fst (get_income_today (today w) st user_id)))
           then Returned else Raised).
Proof.
  unfold handle_dohod.
  destruct (get_income_today (today w) st user_id); reflexivity.
Qed.

Lemma total_after_same_day_credit (day : date) (st : Storage) (user amount : Z) :
  fst (get_income_today day (snd (add_income day st user amount)) user)
  = fst (get_income_today day st user) + amount.
Proof.
  rewrite total_after_add_income.
  rewrite (proj2 (date_eqb_eq day day) eq_refl), Z.eqb_refl. reflexivity.
Qed.

Lemma sign_only_run (w : World) (st : Storage) (m : Message) :
  is_allowed (chat_id m) (default 0 (message_thread_id m)) = true ->
  text m = u "+15" ->
  handle_message w st m
  = mkRun (snd (add_income (today w) st (from_user_id m) 10))
          [Classified (u "+15") 10;
           Credited (from_user_id m) 10
             (fst (get_income_today (today w) st (from_user_id m)) + 10);
           DirectMessage (from_user_id m)
             (MSG_INCOME 10
                (fst (get_income_today (today w) st (from_user_id m)) + 10))]
          Returned.
Proof.
  intros Ha Htext.
  assert (Hamount : extract_amount (text m) = 10) by (rewrite Htext; reflexivity).
  rewrite handle_message_income.
  - rewrite Hamount, Htext. reflexivity.
  - exact Ha.
  - rewrite Htext. reflexivity.
  - rewrite Hamount. discriminate.
Qed.

(** C2, as the program behaves.  The text of a plus sign followed by 15 has
    the sign token and matches the sign rule only, whose amount is 10: the
    digits are not read.  In a permitted context the handler credits 10 to
    the bucket of the sender for the date of the clock and attempts the
    direct message with the new total; whether the send delivers or raises
    (the world [w] is arbitrary), the handler returns normally and the
    credit stays, so that the total of the sender for that date, read
    afterwards, is the total before plus 10. *)
Theorem plus_15_credits_10 (w : World) (st : Storage) (m : Message) :
  is_allowed (chat_id m) (default 0 (message_thread_id m)) = true ->
  text m = u "+15" ->
  let r := handle_message w st m in
  let sender := from_user_id m in
  let before := fst (get_income_today (today w) st sender) in
  extract_amount (text m) = 10
  /\ trace r = [Classified (u "+15") 10; Credited sender 10 (before + 10);
                DirectMessage sender (MSG_INCOME 10 (before + 10))]
  /\ status r = Returned
  /\ fst (get_income_today (today w) (storage r) sender) = before + 10
  /\ fst (get_income_today (today w)
           (storage (handle_dohod w (storage r) sender)) sender) = before + 10.
Proof.
  intros Ha Htext r sender before. unfold r.
  rewrite (sign_only_run w st m Ha Htext). cbn [trace status storage].
  fold sender. fold before.
  split; [rewrite Htext; reflexivity|].
  split; [reflexivity|]. split; [reflexivity|].
  split; [apply total_after_same_day_credit|].
  rewrite handle_dohod_run. cbn [storage].
  rewrite total_after_query. apply total_after_same_day_credit.
Qed.

Lemma plus_15_credits_10_witness :
  let m := sample_message (u "+15") in
  let r := handle_message unreachable_world ∅ m in
  is_allowed (chat_id m) (default 0 (message_thread_id m)) = true
  /\ text m = u "+15"
  /\ send_message unreachable_world 42 (MSG_INCOME 10 10) = false
  /\ status r = Returned
  /\ fst (get_income_today sample_day (storage r) 42)
     = fst (get_income_today sample_day ∅ 42) + 10.
Proof.
  intros m r.
  assert (Ha : is_allowed (chat_id m) (default 0 (message_thread_id m)) = true)
    by reflexivity.
  assert (Ht : text m = u "+15") by reflexivity.
  destruct (plus_15_credits_10 unreachable_world ∅ m Ha Ht)
    as (_ & _ & Hstatus & Htotal & _).
  repeat split; assumption.
Defined.

(** C2, as the claim states it, fails: the amount credited for that text
    is 10, not 15; from an empty ledger the total of the sender afterwards
    is 10. *)
Lemma plus_15_not_15 :
  let m := sample_message (u "+15") in
  let r := handle_message quiet_world ∅ m in
  is_allowed (chat_id m) (default 0 (message_thread_id m)) = true
  /\ extract_amount (text m) <> 15
  /\ ~ In (Credited 42 15 15) (trace r)
  /\ fst (get_income_today sample_day (storage r) 42)
     <> fst (get_income_today sample_day ∅ 42) + 15.
Proof.
  intros m r.
  assert (Hr : r = handle_message quiet_world ∅ m) by reflexivity.
  rewrite (sign_only_run quiet_world ∅ m eq_refl eq_refl) in Hr.
  cbn [today quiet_world from_user_id m sample_message] in Hr.
  split; [reflexivity|].
  split; [change (extract_amount (text m)) with 10; discriminate|].
  rewrite Hr. cbn [trace storage]. split.
  - intros [H|[H|[H|[]]]]; discriminate H.
  - rewrite total_after_same_day_credit. lia.
Qed.

(** C10.  A text that holds a plus sign anywhere is classified with an
    amount of at least 10, because the sign rule, which is the last one of
    the sorted table, matches it after the lower-casing and every rule
    has an amount of at least 10; so the
    classifier never gives 0 for such a text.  When the handler takes the
    branch of the sign token with amount 0, the text has no plus sign, and
    the token is a minus sign that follows a whitespace character (a minus
    sign at the very beginning is matched by the sign rule, too).  The
    branch is taken for some text: the last part gives one. *)
Theorem plus_is_always_priced :
  (exists before,
      sorted (fun x => - snd x) PRICE_MAP = before ++ [(RE_SIGN, 10)])
  /\ Forall (fun rule => 10 <= snd rule) PRICE_MAP
  /\ (forall text : str, In PLUS text -> re_search RE_SIGN (lower text) = true)
  /\ (forall text : str, In PLUS text -> 10 <= extract_amount text)
  /\ (forall text : str, In PLUS text -> extract_amount text <> 0)
  /\ (forall text : str,
        re_search RE_TRIGGER text = true -> extract_amount text = 0 ->
        ~ In PLUS text
        /\ exists pre sp suf,
             text = pre ++ sp :: MINUS :: suf /\ isspace sp = true)
  /\ (forall (w : World) (st : Storage) (m : Message),
        In (Classified (text m) 0) (trace (handle_message w st m)) ->
        ~ In PLUS (text m)
        /\ exists pre sp suf,
             text m = pre ++ sp :: MINUS :: suf /\ isspace sp = true)
  /\ (re_search RE_TRIGGER (u "a -b") = true /\ extract_amount (u "a -b") = 0).
Proof.
  assert (Hpos : forall text : str, In PLUS text -> 10 <= extract_amount text).
  { intros text Hin. apply sign_rule_amount. left. exact Hin. }
  assert (Hzero : forall text : str,
             re_search RE_TRIGGER text = true -> extract_amount text = 0 ->
             ~ In PLUS text
             /\ exists pre sp suf,
                  text = pre ++ sp :: MINUS :: suf /\ isspace sp = true).
  { intros text Ht Hz.
    assert (Hnoplus : ~ In PLUS text).
    { intros Hin. specialize (Hpos text Hin). lia. }
    split; [exact Hnoplus|].
    apply re_search_RE_TRIGGER in Ht as (pre & c & suf & -> & Hc & Hpre).
    destruct Hc as [->| ->].
    - exfalso. apply Hnoplus. apply in_elt.
    - destruct Hpre as [->|(pre' & sp & -> & Hsp)].
      + exfalso.
        assert (10 <= extract_amount ([] ++ MINUS :: suf))
          by (apply sign_rule_amount; right; cbn [app]; eauto).
        lia.
      + exists pre', sp, suf. rewrite <- app_assoc. split; [reflexivity|exact Hsp]. }
  split; [exists (List.removelast (rev PRICE_MAP)); reflexivity|].
  split; [repeat constructor; cbn [snd]; lia|].
  split; [intros text Hin; apply sign_rule_matches; left; exact Hin|].
  split; [exact Hpos|].
  split; [intros text Hin; specialize (Hpos text Hin); lia|].
  split; [exact Hzero|].
  split; [|split; reflexivity].
  intros w st m Hin.
  destruct (is_allowed (chat_id m) (default 0 (message_thread_id m))) eqn:Ha.
  - destruct (re_search RE_TRIGGER (text m)) eqn:Ht.
    + destruct (Z.eq_dec (extract_amount (text m)) 0) as [Hz|Hnz].
      * apply Hzero; assumption.
      * rewrite (handle_message_income w st m Ha Ht Hnz) in Hin.
        cbn [trace] in Hin.
        destruct Hin as [H|[H|[H|[]]]]; try discriminate H.
        injection H as H. congruence.
    + rewrite (handle_message_order w st m Ha Ht) in Hin.
      destruct (order_path_run w st [] (text m)) as (_ & tail & Htrace & Htail).
      rewrite Htrace in Hin. cbn [app] in Hin.
      destruct Hin as [H|[H|Hin]]; try discriminate H.
      destruct Htail as [[-> _]|(body & [[-> _]|[-> _]])];
        cbn [In] in Hin; intuition discriminate.
  - rewrite (handle_message_not_allowed w st m Ha) in Hin. destruct Hin.
Qed.

(** ** Phone validator *)

Lemma re_sub_delete_non_digits (s : str) :
  re_sub_delete (fun c => negb (isdigit c)) s = List.filter isdigit s.
Proof.
  unfold re_sub_delete. apply filter_ext. intros c. apply negb_involutive.
Qed.

Lemma filter_all {A : Type} (f : A -> bool) (l : list A) :
  Forall (fun x => f x = true) (List.filter f l).
Proof.
  apply List.Forall_forall. intros x Hx. apply filter_In in Hx. tauto.
Qed.

(** C5.  The validator keeps the digits of its input, in order, and holds
    exactly when that string of digits begins with one of the five
    prefixes and has at least nine characters; the four numbers of the
    specification are classified as it says. *)
Theorem is_valid_phone_spec :
  (forall raw : str,
     let digits := List.filter isdigit raw in
     re_sub_delete (fun c => negb (isdigit c)) raw = digits
     /\ Forall (fun c => isdigit c = true) digits
     /\ (is_valid_phone raw = true <->
         (exists p rest, In p PHONE_PREFIXES /\ digits = p ++ rest)
         /\ (9 <= length digits)%nat))
  /\ PHONE_PREFIXES = [u "375"; u "8029"; u "8044"; u "8033"; u "8025"]
  /\ is_valid_phone (u "+375291234567") = true
  /\ is_valid_phone (u "80291234567") = true
  /\ List.filter isdigit (u "80291234567") = u "8029" ++ u "1234567"
  /\ is_valid_phone (u "+79991234567") = false
  /\ is_valid_phone (u "12345") = false.
Proof.
  split; [|repeat split; reflexivity].
  intros raw digits.
  split; [apply re_sub_delete_non_digits|].
  split; [apply filter_all|].
  unfold is_valid_phone. rewrite re_sub_delete_non_digits. fold digits.
  rewrite andb_true_iff, Nat.leb_le, existsb_exists.
  split.
  - intros [(p & Hin & Hp) Hlen]. apply startswith_spec in Hp as [rest Hp].
    split; [|exact Hlen]. exists p, rest. split; assumption.
  - intros [(p & rest & Hin & Hp) Hlen]. split; [|exact Hlen].
    exists p. split; [exact Hin|]. apply startswith_spec. eauto.
Qed.

(** ** Order validator *)

Lemma re_search_RE_DIGITS (s : str) : re_search RE_DIGITS s = has_digit s.
Proof.
  apply eq_true_iff_eq. unfold has_digit, RE_DIGITS.
  rewrite re_search_spec, existsb_exists. cbn [denotes]. split.
  - intros (pre & w & rest & -> & Hall & Hlen & _).
    destruct w as [|c w]; [cbn in Hlen; lia|].
    exists c. split; [apply in_or_app; right; left; reflexivity|].
    inversion Hall; assumption.
  - intros (c & Hin & Hc). apply in_split in Hin as (pre & rest & ->).
    exists pre, [c], rest. repeat split.
    + repeat constructor. exact Hc.
    + cbn; lia.
Qed.

Lemma validate_missing (data : Fields) :
  validate data =
  if negb (is_empty (phone data)) && negb (is_valid_phone (phone data))
  then RejectedInvalidPhone
  else match spec_missing data with
       | [] => Accepted (format_order data)
       | _ :: _ => RejectedMissingFields (spec_missing data)
       end.
Proof.
  unfold validate, spec_missing. rewrite re_search_RE_DIGITS.
  destruct (is_empty (address data) || negb (has_digit (address data)));
    destruct (is_empty (interval data));
    destruct (is_empty (phone data));
    destruct (is_valid_phone (phone data)); reflexivity.
Qed.

(** C3.  When the phone of the extracted order is not empty and fails the
    phone validator, the outcome is the invalid-phone rejection, whatever the
    address and the interval are (so also when they would be listed as
    missing); the reply is the phone message and not the missing-fields
    message. *)
Theorem invalid_phone_reported_alone (data : Fields) :
  phone data <> [] ->
  is_valid_phone (phone data) = false ->
  validate data = RejectedInvalidPhone
  /\ outcome_reply (validate data) = MSG_INVALID_PHONE
  /\ forall missing, validate data <> RejectedMissingFields missing.
Proof.
  intros Hne Hinv. rewrite validate_missing, Hinv.
  destruct (phone data) as [|c p]; [congruence|]. cbn [is_empty negb andb].
  repeat split. intros missing. discriminate.
Qed.

Lemma invalid_phone_reported_alone_witness :
  phone (mkFields [] [] (u "12345") []) <> []
  /\ is_valid_phone (phone (mkFields [] [] (u "12345") [])) = false
  /\ spec_missing (mkFields [] [] (u "12345") [])
     = [LABEL_ADDRESS; LABEL_INTERVAL]
  /\ validate (mkFields [] [] (u "12345") []) = RejectedInvalidPhone
  /\ validate (mkFields (u "с 14:00 до 16:00") (u "ул. Ленина 5") (u "12345") [])
     = RejectedInvalidPhone.
Proof.
  split; [discriminate|]. split; [reflexivity|]. split; [reflexivity|].
  split.
  - apply (invalid_phone_reported_alone (mkFields [] [] (u "12345") []));
      [discriminate|reflexivity].
  - apply (invalid_phone_reported_alone
             (mkFields (u "с 14:00 до 16:00") (u "ул. Ленина 5") (u "12345") []));
      [discriminate|reflexivity].
Defined.

Lemma labels_distinct :
  LABEL_ADDRESS <> LABEL_INTERVAL /\ LABEL_ADDRESS <> LABEL_PHONE
  /\ LABEL_INTERVAL <> LABEL_PHONE.
Proof. repeat split; intros H; vm_compute in H; discriminate H. Qed.

Lemma no_digit_spec (s : str) :
  negb (has_digit s) = true <-> forall c, In c s -> isdigit c = false.
Proof.
  unfold has_digit. rewrite negb_true_iff. split.
  - intros H c Hin. destruct (isdigit c) eqn:Hc; [|reflexivity].
    assert (existsb isdigit s = true) by (apply existsb_exists; eauto).
    congruence.
  - intros H. destruct (existsb isdigit s) eqn:He; [|reflexivity].
    apply existsb_exists in He as (c & Hin & Hc). rewrite (H c Hin) in Hc.
    discriminate.
Qed.

Lemma spec_missing_members (data : Fields) (label : str) :
  In label (spec_missing data) <->
  (label = LABEL_ADDRESS
   /\ is_empty (address data) || negb (has_digit (address data)) = true)
  \/ (label = LABEL_INTERVAL /\ is_empty (interval data) = true)
  \/ (label = LABEL_PHONE /\ is_empty (phone data) = true).
Proof.
  unfold spec_missing.
  generalize LABEL_ADDRESS as la, LABEL_INTERVAL as li, LABEL_PHONE as lp.
  intros la li lp. rewrite !in_app_iff.
  destruct (is_empty (address data) || negb (has_digit (address data)));
    destruct (is_empty (interval data));
    destruct (is_empty (phone data)); cbn [In];
    intuition congruence.
Qed.

(** C7.  For an order whose phone is empty or valid (so that the
    invalid-phone rejection does not apply), the list of missing fields has
    the address label exactly when the address is empty or holds no digit,
    the interval label exactly when the interval is empty and the phone label
    exactly when the phone is empty, in that order; the outcome is the
    missing-fields rejection with that list when it is not empty, and the
    acceptance otherwise.  An order with an empty interval and an empty
    phone whose address holds a digit is rejected with the interval and the
    phone labels and without the address label. *)
Theorem missing_fields_listed (data : Fields) :
  phone data = [] \/ is_valid_phone (phone data) = true ->
  (In LABEL_ADDRESS (spec_missing data) <->
   address data = [] \/ forall c, In c (address data) -> isdigit c = false)
  /\ (In LABEL_INTERVAL (spec_missing data) <-> interval data = [])
  /\ (In LABEL_PHONE (spec_missing data) <-> phone data = [])
  /\ (forall label, In label (spec_missing data) ->
        label = LABEL_ADDRESS \/ label = LABEL_INTERVAL \/ label = LABEL_PHONE)
  /\ validate data
     = match spec_missing data with
       | [] => Accepted (format_order data)
       | _ :: _ => RejectedMissingFields (spec_missing data)
       end
  /\ (forall (address' comment' : str),
        has_digit address' = true ->
        validate (mkFields [] address' [] comment')
        = RejectedMissingFields [LABEL_INTERVAL; LABEL_PHONE]).
Proof.
  intros Hphone.
  assert (Hvalidate : validate data
                      = match spec_missing data with
                        | [] => Accepted (format_order data)
                        | _ :: _ => RejectedMissingFields (spec_missing data)
                        end).
  { rewrite validate_missing.
    destruct Hphone as [->| ->]; [reflexivity|].
    rewrite andb_false_r. reflexivity. }
  assert (Hcase : forall address' comment' : str,
             has_digit address' = true ->
             validate (mkFields [] address' [] comment')
             = RejectedMissingFields [LABEL_INTERVAL; LABEL_PHONE]).
  { intros address' comment' Hd. rewrite validate_missing.
    unfold spec_missing. cbn [phone interval address is_empty negb andb].
    rewrite Hd. destruct address' as [|c s]; [discriminate Hd|]. reflexivity. }
  pose proof (spec_missing_members data) as Hmem.
  assert (Ha : is_empty (address data) || negb (has_digit (address data)) = true
               <-> address data = []
                   \/ forall c, In c (address data) -> isdigit c = false)
    by (rewrite orb_true_iff, is_empty_true, no_digit_spec; reflexivity).
  destruct labels_distinct as (Hai & Hap & Hip).
  revert Hvalidate Hcase Hmem Hai Hap Hip.
  generalize (spec_missing data) as missing.
  generalize LABEL_ADDRESS as la, LABEL_INTERVAL as li, LABEL_PHONE as lp.
  intros la li lp missing Hvalidate Hcase Hmem Hai Hap Hip.
  split; [|split; [|split; [|split; [|split]]]].
  - rewrite Hmem, <- Ha. intuition congruence.
  - rewrite Hmem, <- is_empty_true. intuition congruence.
  - rewrite Hmem, <- is_empty_true. intuition congruence.
  - intros label Hin. apply Hmem in Hin. tauto.
  - exact Hvalidate.
  - exact Hcase.
Qed.

Lemma missing_fields_listed_witness :
  (phone (mkFields [] (u "ул. Ленина 5") [] []) = []
   \/ is_valid_phone (phone (mkFields [] (u "ул. Ленина 5") [] [])) = true)
  /\ validate (mkFields [] (u "ул. Ленина 5") [] [])
     = RejectedMissingFields [LABEL_INTERVAL; LABEL_PHONE]
  /\ ~ In LABEL_ADDRESS (spec_missing (mkFields [] (u "ул. Ленина 5") [] [])).
Proof.
  assert (H : phone (mkFields [] (u "ул. Ленина 5") [] []) = []
              \/ is_valid_phone (phone (mkFields [] (u "ул. Ленина 5") [] [])) = true)
    by (left; reflexivity).
  destruct (missing_fields_listed (mkFields [] (u "ул. Ленина 5") [] []) H)
    as (Haddr & _ & _ & _ & Hval & _).
  split; [exact H|]. split; [exact Hval|].
  intros Hin. apply Haddr in Hin. cbn [address] in Hin.
  destruct Hin as [Hin|Hin]; [discriminate Hin|].
  specialize (Hin 53). assert (isdigit 53 = false) by (apply Hin; vm_compute; tauto).
  discriminate.
Defined.

(** ** The claims on the ledger and on the classifier *)

Lemma get_income_today_empty (day : date) (user : Z) :
  fst (get_income_today day ∅ user) = 0.
Proof.
  unfold get_income_today, bucket. cbn [fst].
  rewrite lookup_empty. cbn [default]. rewrite lookup_empty. reflexivity.
Qed.

Lemma credited_none (day : date) (user : Z) (ops : list ledger_op) :
  (forall amount, ~ In (Credit day user amount) ops) ->
  credited day user ops = 0.
Proof.
  induction ops as [|op ops IH]; intros Hnone; cbn [credited].
  - reflexivity.
  - assert (Hrest : credited day user ops = 0).
    { apply IH. intros amount Hin. apply (Hnone amount). right. exact Hin. }
    destruct op as [d v a|d v]; [|exact Hrest].
    destruct (date_eqb d day) eqn:Hd; cbn [andb]; [|lia].
    destruct (Z.eqb_spec v user) as [->|Hv]; [|lia].
    apply date_eqb_eq in Hd. subst d.
    exfalso. apply (Hnone a). left. reflexivity.
Qed.

(** C8.  A credit adds its amount to the bucket of the user for the date
    of the call and returns the new total, which is what a query of that
    user for that date then reads.  After any sequence of credits and
    queries, for any users and dates, the total of a user for a date is
    the total before plus the sum of the amounts credited to that user on
    that date; from the empty ledger it is that sum, and it is 0 when no
    credit of that user on that date was made.  A credit for another date
    or another user leaves the total as it was. *)
Theorem ledger_running_sum :
  (forall (day : date) (st : Storage) (user amount : Z),
      fst (add_income day st user amount)
      = fst (get_income_today day st user) + amount
      /\ fst (get_income_today day (snd (add_income day st user amount)) user)
         = fst (add_income day st user amount))
  /\ (forall (day : date) (user : Z) (ops : list ledger_op) (st : Storage),
        fst (get_income_today day (run_ops st ops) user)
        = fst (get_income_today day st user) + credited day user ops)
  /\ (forall (day : date) (user : Z) (ops : list ledger_op),
        fst (get_income_today day (run_ops ∅ ops) user) = credited day user ops)
  /\ (forall (day : date) (user : Z), fst (get_income_today day ∅ user) = 0)
  /\ (forall (day : date) (user : Z) (ops : list ledger_op),
        (forall amount, ~ In (Credit day user amount) ops) ->
        fst (get_income_today day (run_ops ∅ ops) user) = 0)
  /\ (forall (day day' : date) (st : Storage) (user user' amount : Z),
        day' <> day \/ user' <> user ->
        fst (get_income_today day (snd (add_income day' st user' amount)) user)
        = fst (get_income_today day st user)).
Proof.
  split; [|split; [|split; [|split; [|split]]]].
  - intros day st user amount. split; [reflexivity|].
    apply total_after_same_day_credit.
  - intros day user ops st. apply total_after_ops.
  - intros day user ops. rewrite total_after_ops, get_income_today_empty. lia.
  - apply get_income_today_empty.
  - intros day user ops Hnone.
    rewrite total_after_ops, get_income_today_empty, credited_none by exact Hnone.
    reflexivity.
  - intros day day' st user user' amount Hother.
    rewrite total_after_add_income.
    destruct (date_eqb day' day) eqn:Hd; cbn [andb]; [|lia].
    destruct (Z.eqb_spec user' user) as [->|Hu]; [|lia].
    apply date_eqb_eq in Hd. destruct Hother; contradiction.
Qed.

Lemma ledger_running_sum_witness :
  fst (get_income_today (2024, 5, 17)
         (run_ops ∅ [Credit (2024, 5, 17) 42 10; Credit (2024, 5, 16) 42 23;
                     Query (2024, 5, 17) 7; Credit (2024, 5, 17) 7 91;
                     Credit (2024, 5, 17) 42 15]) 42) = 25
  /\ fst (get_income_today (2024, 5, 18)
            (run_ops ∅ [Credit (2024, 5, 17) 42 10]) 42) = 0.
Proof.
  destruct ledger_running_sum as (_ & _ & Hsum & _ & Hnone & _).
  split.
  - rewrite Hsum. reflexivity.
  - apply Hnone. intros amount [H|[]]. discriminate H.
Defined.

(** C4.  The classifier lower-cases the text and goes through the rules
    sorted by amount, largest first (the sorted table is a rearrangement
    of [PRICE_MAP], here its reverse); it returns the amount of the first
    rule whose pattern is found somewhere in the lower-cased text (for a
    pattern without special characters: as a substring), and 0 when no
    pattern is found.  Hence the result is at least the amount of
    every rule that matches, and it is a function of the text alone.  The
    text of the blue add-on matches both its own rule and the generic rule
    and is classified 23. *)
Theorem extract_amount_first_match :
  let rules := sorted (fun x => - snd x) PRICE_MAP in
  Permutation PRICE_MAP rules
  /\ StronglySorted (fun x y => snd x >= snd y) rules
  /\ rules = rev PRICE_MAP
  /\ (forall text : str,
        (exists before pattern amount after,
            rules = before ++ (pattern, amount) :: after
            /\ Forall (no_match (lower text)) before
            /\ re_search pattern (lower text) = true
            /\ extract_amount text = amount)
        \/ (Forall (no_match (lower text)) rules /\ extract_amount text = 0))
  /\ (forall (r : regex) (s : str),
        re_search r s = true <->
        exists pre w rest, s = pre ++ w ++ rest /\ denotes r (is_empty pre) w rest)
  /\ (forall p s : str, re_search (RStr p) s = str_in p s)
  /\ (forall (text : str) (pattern : regex) (amount : Z),
        In (pattern, amount) PRICE_MAP ->
        re_search pattern (lower text) = true ->
        amount <= extract_amount text)
  /\ (forall text1 text2 : str,
        text1 = text2 -> extract_amount text1 = extract_amount text2)
  /\ (re_search (RStr (u "мк доп синяя")) (lower (u "мк доп синяя")) = true
      /\ re_search RE_MK (lower (u "мк доп синяя")) = true
      /\ extract_amount (u "мк доп синяя") = 23).
Proof.
  intros rules.
  split; [apply sorted_Permutation|].
  split; [apply price_rules_descending|].
  split; [apply sorted_PRICE_MAP|].
  split; [intros text; apply first_match_cases|].
  split; [apply re_search_spec|].
  split; [apply re_search_RStr|].
  split; [intros text pattern amount; apply extract_amount_max|].
  split; [intros text1 text2 ->; reflexivity|].
  repeat split; reflexivity.
Qed.

(** ** Field extractor *)

Lemma anywhere_spec (P : str -> bool) (s : str) :
  anywhere P s = true <-> exists pre suf, s = pre ++ suf /\ P suf = true.
Proof.
  induction s as [|c s IH]; cbn [anywhere]; rewrite orb_true_iff.
  - split.
    + intros [H|H]; [|discriminate]. exists [], []. auto.
    + intros (pre & suf & Hs & HP). left.
      symmetry in Hs. apply app_eq_nil in Hs as [_ ->]. exact HP.
  - rewrite IH. split.
    + intros [H|(pre & suf & -> & HP)].
      * exists [], (c :: s). auto.
      * exists (c :: pre), suf. auto.
    + intros (pre & suf & Hs & HP). destruct pre as [|c' pre].
      * left. cbn [app] in Hs. subst suf. exact HP.
      * right. injection Hs as -> ->. eauto.
Qed.

Lemma search_from_anywhere (r : regex) (P : str -> bool) :
  (forall start s, match_here r start s accept = P s) ->
  forall s start, search_from r start s = anywhere P s.
Proof.
  intros H. induction s as [|c s IH]; intros start; cbn [search_from anywhere].
  - rewrite H. reflexivity.
  - rewrite H, IH. reflexivity.
Qed.

Lemma rep_from_digits (lo : nat) : forall (s : str) (n : nat) (start : bool),
  rep_from isdigit lo None n s accept start = leading_digits (lo - n) s.
Proof.
  induction s as [|c s IH]; intros n start; cbn [rep_from below accept].
  - rewrite andb_true_r, orb_false_r.
    destruct (Nat.leb_spec lo n) as [Hle|Hgt].
    + replace (lo - n)%nat with O by lia. reflexivity.
    + destruct (lo - n)%nat eqn:E; [lia|]. reflexivity.
  - rewrite andb_true_r, IH. cbn [andb].
    destruct (Nat.leb_spec lo n) as [Hle|Hgt].
    + replace (lo - n)%nat with O by lia. reflexivity.
    + destruct (lo - n)%nat eqn:E; [lia|]. cbn [leading_digits orb].
      replace (lo - S n)%nat with n0 by lia. reflexivity.
Qed.

Local Ltac case_bools :=
  repeat match goal with
         | |- context [isdigit ?x] => destruct (isdigit x)
         | |- context [chr_eqb ?x ?y] => destruct (chr_eqb x y)
         end.

Lemma rep_from_reached p lo hi n (s : str) (start : bool) :
  Nat.leb lo n = true -> rep_from p lo hi n s accept start = true.
Proof. intros H. destruct s; cbn [rep_from accept]; rewrite H; reflexivity. Qed.

Lemma match_here_RE_TIME (start : bool) (s : str) :
  match_here RE_TIME start s accept = hhmm_here s.
Proof.
  unfold RE_TIME, RLit, hhmm_here, clock_here.
  destruct s as [|a [|b [|c [|d [|e s]]]]];
    cbn [match_here rep_from below accept Nat.leb Nat.ltb andb orb];
    rewrite ?rep_from_reached by reflexivity;
    case_bools; reflexivity.
Qed.

Lemma rep_from_optional p (s : str) (k : bool -> str -> bool) (start : bool) :
  rep_from p 0 (Some 1%nat) 0 s k start
  = k start s ||
    match s with
    | c :: s' => p c && k false s'
    | [] => false
    end.
Proof.
  destruct s as [|a [|b s]];
    cbn [rep_from below Nat.leb Nat.ltb andb orb];
    rewrite ?orb_false_r; reflexivity.
Qed.

Lemma match_here_RE_PHONE (start : bool) (s : str) :
  match_here RE_PHONE start s accept = phone_here s.
Proof.
  unfold RE_PHONE, phone_here. cbn [match_here].
  rewrite rep_from_optional, rep_from_digits.
  destruct s as [|a s]; [reflexivity|].
  rewrite rep_from_digits. reflexivity.
Qed.

Lemma re_search_RE_TIME (s : str) : re_search RE_TIME s = anywhere hhmm_here s.
Proof. apply search_from_anywhere. intros; apply match_here_RE_TIME. Qed.

Lemma re_search_RE_PHONE (s : str) : re_search RE_PHONE s = anywhere phone_here s.
Proof. apply search_from_anywhere. intros; apply match_here_RE_PHONE. Qed.

Lemma re_sub_delete_keeps (s : str) :
  re_sub_delete not_digit_or_plus s
  = List.filter (fun c => isdigit c || chr_eqb c PLUS) s.
Proof.
  unfold re_sub_delete, not_digit_or_plus. apply filter_ext.
  intros c. apply negb_involutive.
Qed.

(** *** Splitting on a separator *)

Lemma split_go_skip (sep : str) : forall (k : nat) (s cur : str),
  split_go sep k cur s = split_go sep 0 cur (skipn k s).
Proof.
  induction k as [|k IH]; intros s cur.
  - reflexivity.
  - destruct s as [|c s]; [reflexivity|]. cbn [split_go skipn]. apply IH.
Qed.

Lemma split_go_not_nil (sep : str) : forall (s : str) (k : nat) (cur : str),
  split_go sep k cur s <> [].
Proof.
  induction s as [|c s IH]; intros k cur; cbn [split_go].
  - discriminate.
  - destruct k as [|k]; [|apply IH].
    destruct (startswith sep (c :: s)); [discriminate|apply IH].
Qed.

Lemma last_piece_cons (x : str) (l : list str) :
  l <> [] -> last_piece (x :: l) = last_piece l.
Proof. unfold last_piece. destruct l; [congruence|reflexivity]. Qed.

Section BorderFree.
Variables (c0 : char) (sep' : str).
Hypothesis first_char_unique : ~ In c0 sep'.

Lemma after_last_skip : forall pre rest : str,
  ~ In c0 pre ->
  after_last (c0 :: sep') (pre ++ rest) = after_last (c0 :: sep') rest.
Proof.
  induction pre as [|a pre IH]; intros rest Hpre; [reflexivity|].
  cbn [app after_last]. rewrite IH by (intros H; apply Hpre; right; exact H).
  destruct (after_last (c0 :: sep') rest); [reflexivity|].
  cbn [startswith].
  destruct (chr_eqb c0 a) eqn:E; [|reflexivity].
  apply chr_eqb_eq in E. exfalso. apply Hpre. left. symmetry. exact E.
Qed.

Lemma last_piece_split_go : forall (n : nat) (s cur : str),
  (length s <= n)%nat ->
  last_piece (split_go (c0 :: sep') 0 cur s)
  = match after_last (c0 :: sep') s with
    | Some r => r
    | None => rev cur ++ s
    end.
Proof.
  induction n as [|n IH]; intros s cur Hlen.
  - destruct s; [|cbn in Hlen; lia]. cbn. rewrite app_nil_r. reflexivity.
  - destruct s as [|c s]; [cbn; rewrite app_nil_r; reflexivity|].
    cbn [split_go after_last].
    destruct (startswith (c0 :: sep') (c :: s)) eqn:E.
    + apply startswith_spec in E as [rest E].
      cbn [app] in E. injection E as -> ->.
      cbn [length Nat.pred]. rewrite split_go_skip.
      assert (Hdrop : skipn (length sep') (sep' ++ rest) = rest)
        by (rewrite skipn_app, skipn_all, Nat.sub_diag; reflexivity).
      cbn [length skipn]. rewrite !Hdrop. cbn [skipn].
      rewrite last_piece_cons by apply split_go_not_nil.
      rewrite IH by (cbn [length] in Hlen; rewrite length_app in Hlen; lia).
      rewrite after_last_skip by exact first_char_unique.
      destruct (after_last (c0 :: sep') rest); reflexivity.
    + rewrite IH by (cbn [length] in Hlen; lia).
      destruct (after_last (c0 :: sep') s); [reflexivity|].
      cbn [rev]. rewrite <- app_assoc. reflexivity.
Qed.

Lemma last_piece_split (s : str) :
  last_piece (split (c0 :: sep') s) = default s (after_last (c0 :: sep') s).
Proof.
  unfold split. rewrite (last_piece_split_go (length s)) by lia.
  destruct (after_last (c0 :: sep') s); reflexivity.
Qed.
End BorderFree.

Lemma after_last_spec (m : str) : forall s r : str,
  after_last m s = Some r -> exists pre, s = pre ++ m ++ r.
Proof.
  induction s as [|c s IH]; intros r; cbn [after_last].
  - destruct m; cbn [is_empty]; [|discriminate].
    intros H. injection H as <-. exists []. reflexivity.
  - destruct (after_last m s) as [r'|] eqn:E.
    + intros H. injection H as <-. destruct (IH r' eq_refl) as [pre ->].
      exists (c :: pre). reflexivity.
    + destruct (startswith m (c :: s)) eqn:Hs; [|discriminate].
      intros H. injection H as <-.
      apply startswith_spec in Hs as [rest Hs]. exists []. rewrite Hs.
      rewrite skipn_app, skipn_all, Nat.sub_diag. reflexivity.
Qed.

Lemma comment_marker_border_free :
  exists sep' : str, COMMENT_MARKER = 1050 :: sep' /\ ~ In 1050 sep'.
Proof.
  exists (List.tl COMMENT_MARKER). split; [vm_compute; reflexivity|].
  assert (H : forallb (fun c => negb (chr_eqb 1050 c)) (List.tl COMMENT_MARKER) = true)
    by (vm_compute; reflexivity).
  rewrite forallb_forall in H. intros Hin. specialize (H _ Hin).
  rewrite (proj2 (chr_eqb_eq 1050 1050) eq_refl) in H. discriminate.
Qed.

Lemma comment_after_marker (line : str) :
  last_piece (split COMMENT_MARKER line)
  = default line (after_last COMMENT_MARKER line).
Proof.
  destruct comment_marker_border_free as (sep' & -> & Hfree).
  apply last_piece_split. exact Hfree.
Qed.

(** *** One line, then all lines *)

Lemma extract_line_spec (fields : Fields) (line : str) :
  extract_line fields line
  = put (spec_field_of line) (spec_value (spec_field_of line) line) fields.
Proof.
  unfold extract_line, spec_field_of.
  rewrite re_search_RE_TIME, re_search_RE_PHONE.
  destruct (anywhere hhmm_here line
            || str_in KW_SOON (lower line) || str_in KW_ASAP (lower line));
    [reflexivity|].
  destruct (str_in COMMENT_MARKER line).
  - cbn [put spec_value]. rewrite comment_after_marker. reflexivity.
  - destruct (anywhere phone_here line); cbn [put spec_value];
      rewrite ?re_sub_delete_keeps; reflexivity.
Qed.

Lemma spec_slot_snoc (before : str) (f : field) (lines : list str) (line : str) :
  spec_slot before f (lines ++ [line])
  = if field_eqb (spec_field_of line) f then spec_value f line
    else spec_slot before f lines.
Proof.
  unfold spec_slot. rewrite List.filter_app. cbn [List.filter].
  destruct (field_eqb (spec_field_of line) f).
  - rewrite rev_unit. reflexivity.
  - rewrite app_nil_r. reflexivity.
Qed.

Lemma fold_extract_line (lines : list str) : forall f0 : Fields,
  fold_left extract_line lines f0
  = mkFields (spec_slot (interval f0) FInterval lines)
             (spec_slot (address f0) FAddress lines)
             (spec_slot (phone f0) FPhone lines)
             (spec_slot (comment f0) FComment lines).
Proof.
  induction lines as [|line lines IH] using rev_ind; intros f0.
  - destruct f0; reflexivity.
  - rewrite fold_left_app. cbn [fold_left]. rewrite IH, extract_line_spec.
    rewrite !spec_slot_snoc.
    destruct (spec_field_of line); reflexivity.
Qed.

Lemma extract_fields_refines (text : str) :
  extract_fields text = spec_extract_fields text.
Proof. unfold extract_fields. rewrite fold_extract_line. reflexivity. Qed.

(** *** The tests of the classification, as statements on the line *)

Lemma clock_here_spec (s : str) :
  clock_here s = true <->
  exists h m1 m2 suf, s = h :: COLON :: m1 :: m2 :: suf
    /\ isdigit h = true /\ isdigit m1 = true /\ isdigit m2 = true.
Proof.
  unfold clock_here. split.
  - destruct s as [|h [|c [|m1 [|m2 suf]]]]; try discriminate.
    rewrite !andb_true_iff, chr_eqb_eq. intros (Hh & <- & Hm1 & Hm2).
    exists h, m1, m2, suf. auto.
  - intros (h & m1 & m2 & suf & -> & Hh & Hm1 & Hm2).
    rewrite Hh, Hm1, Hm2. reflexivity.
Qed.

Lemma has_clock_spec (line : str) :
  anywhere hhmm_here line = true <->
  exists pre h m1 m2 suf, line = pre ++ h :: COLON :: m1 :: m2 :: suf
    /\ isdigit h = true /\ isdigit m1 = true /\ isdigit m2 = true.
Proof.
  rewrite anywhere_spec. unfold hhmm_here. split.
  - intros (pre & s & -> & H). apply orb_true_iff in H as [H|H].
    + apply clock_here_spec in H as (h & m1 & m2 & suf & -> & ?).
      exists pre, h, m1, m2, suf. auto.
    + destruct s as [|h0 s]; [discriminate|].
      apply andb_true_iff in H as [_ H].
      apply clock_here_spec in H as (h & m1 & m2 & suf & -> & ?).
      exists (pre ++ [h0]), h, m1, m2, suf. rewrite <- app_assoc. auto.
  - intros (pre & h & m1 & m2 & suf & -> & H).
    exists pre, (h :: COLON :: m1 :: m2 :: suf). split; [reflexivity|].
    apply orb_true_iff. left. apply clock_here_spec.
    exists h, m1, m2, suf. auto.
Qed.

Lemma leading_digits_spec : forall (n : nat) (s : str),
  leading_digits n s = true <->
  exists run rest, s = run ++ rest /\ length run = n
    /\ Forall (fun c => isdigit c = true) run.
Proof.
  induction n as [|n IH]; intros s; cbn [leading_digits].
  - split; [|reflexivity]. intros _. exists [], s. auto.
  - destruct s as [|c s].
    + split; [discriminate|].
      intros (run & rest & Hs & Hlen & _).
      destruct run; [discriminate Hlen|discriminate Hs].
    + rewrite andb_true_iff, IH. split.
      * intros (Hc & run & rest & -> & Hlen & Hall).
        exists (c :: run), rest. cbn [length app]. auto.
      * intros (run & rest & Hs & Hlen & Hall).
        destruct run as [|c' run]; [discriminate Hlen|].
        injection Hs as -> ->. injection Hlen as Hlen.
        inversion Hall; subst. split; [assumption|].
        exists run, rest. auto.
Qed.

Lemma has_digit_run_spec (line : str) :
  anywhere phone_here line = true <->
  exists pre run suf, line = pre ++ run ++ suf /\ (7 <= length run)%nat
    /\ Forall (fun c => isdigit c = true) run.
Proof.
  rewrite anywhere_spec. unfold phone_here. split.
  - intros (pre & s & -> & H). apply orb_true_iff in H as [H|H].
    + apply leading_digits_spec in H as (run & rest & -> & Hlen & Hall).
      exists pre, run, rest. repeat split; [lia|assumption].
    + destruct s as [|c s]; [discriminate|].
      apply andb_true_iff in H as [_ H].
      apply leading_digits_spec in H as (run & rest & -> & Hlen & Hall).
      exists (pre ++ [c]), run, rest. rewrite <- app_assoc.
      repeat split; [lia|assumption].
  - intros (pre & run & suf & -> & Hlen & Hall).
    exists pre, (run ++ suf). split; [reflexivity|].
    apply orb_true_iff. left. apply leading_digits_spec.
    exists (firstn 7 run), (skipn 7 run ++ suf).
    rewrite app_assoc, firstn_skipn. split; [reflexivity|].
    split; [rewrite length_firstn; lia|].
    apply Forall_take. exact Hall.
Qed.

Lemma after_last_found (m : str) : forall s : str,
  str_in m s = true -> exists r, after_last m s = Some r.
Proof.
  induction s as [|c s IH]; cbn [str_in after_last].
  - rewrite orb_false_r. destruct m; [eauto|discriminate].
  - intros H. destruct (after_last m s) as [r|]; [eauto|].
    apply orb_true_iff in H as [H|H].
    + rewrite H. eauto.
    + destruct (IH H) as [r Hr]. discriminate Hr.
Qed.

(** C6.  The extractor splits the stripped completion into lines and gives
    every line to one field, by the first of these tests that holds: the
    line has a time of day (one or two digits, a colon, two digits) or,
    in lower case, one of the two keywords: interval; it has the comment
    marker: comment, whose value is the stripped text after the last
    marker; it has seven digits in a row (a plus sign before them or not):
    phone, whose value keeps the digits and plus signs of the line; else:
    address.  Every field has the value given by the last line that went to
    it, and is empty when no line did.  On the four-line completion of
    the specification the result is the record it states. *)
Theorem extract_fields_by_priority :
  (forall text : str, extract_fields text = spec_extract_fields text)
  /\ (forall line : str,
        anywhere hhmm_here line = true <->
        exists pre h m1 m2 suf, line = pre ++ h :: COLON :: m1 :: m2 :: suf
          /\ isdigit h = true /\ isdigit m1 = true /\ isdigit m2 = true)
  /\ (forall p s : str,
        str_in p s = true <-> exists pre suf, s = pre ++ p ++ suf)
  /\ (forall line : str,
        str_in COMMENT_MARKER line = true ->
        exists pre r, after_last COMMENT_MARKER line = Some r
          /\ line = pre ++ COMMENT_MARKER ++ r
          /\ last_piece (split COMMENT_MARKER line) = r)
  /\ (forall line : str,
        anywhere phone_here line = true <->
        exists pre run suf, line = pre ++ run ++ suf /\ (7 <= length run)%nat
          /\ Forall (fun c => isdigit c = true) run)
  /\ split [NEWLINE] (strip sample_completion)
     = [u "с 14:00 до 16:00"; u "ул. Ленина 5"; u "+375291234567";
        u "Комментарий заказчика: позвонить за 10 минут"]
  /\ map spec_field_of (split [NEWLINE] (strip sample_completion))
     = [FInterval; FAddress; FPhone; FComment]
  /\ extract_fields sample_completion
     = mkFields (u "с 14:00 до 16:00") (u "ул. Ленина 5")
                (u "+375291234567") (u "позвонить за 10 минут").
Proof.
  split; [exact extract_fields_refines|].
  split; [exact has_clock_spec|].
  split; [intros p s; apply str_in_spec|].
  split.
  { intros line Hin. destruct (after_last_found _ _ Hin) as [r Hr].
    destruct (after_last_spec _ _ _ Hr) as [pre Hline].
    exists pre, r. split; [exact Hr|]. split; [exact Hline|].
    rewrite comment_after_marker, Hr. reflexivity. }
  split; [exact has_digit_run_spec|].
  split; [vm_compute; reflexivity|].
  split; vm_compute; reflexivity.
Qed.

(** * Further properties of the program *)

(** ** Lower-casing and the sign characters *)

Lemma lower_in_source (runs : list (Z * Z * Z * Z)) (c x : char) :
  lower_in runs c = x -> c = x \/ In c (map (fun run => x - snd run) runs).
Proof.
  induction runs as [|[[[first last] stride] delta] runs IH]; cbn [lower_in map In].
  - auto.
  - destruct ((first <=? c) && (c <=? last) && ((c - first) mod stride =? 0)).
    + intros <-. right. left. cbn [snd]. lia.
    + intros H. destruct (IH H); auto.
Qed.

Lemma lowered_from_itself (x c : char) :
  only_from_itself x = true -> lower_in LOWER_RUNS c = x -> c = x.
Proof.
  unfold only_from_itself. rewrite forallb_forall. intros Hall Hc.
  assert (Hin : In c (lower_sources x)).
  { unfold lower_sources. destruct (lower_in_source _ _ _ Hc) as [->|H].
    - left. reflexivity.
    - right. exact H. }
  specialize (Hall c Hin). apply orb_true_iff in Hall as [H|H].
  - apply Z.eqb_eq. exact H.
  - rewrite Hc, Z.eqb_refl in H. discriminate.
Qed.

Lemma lower_char_head (c : char) :
  exists x rest, lower_char c = x :: rest
    /\ (c = 304 /\ x = 105 /\ rest = [775]
        \/ c <> 304 /\ x = lower_in LOWER_RUNS c /\ rest = []).
Proof.
  unfold lower_char. destruct (Z.eqb_spec c 304) as [->|Hne].
  - exists 105, [775]. auto.
  - exists (lower_in LOWER_RUNS c), []. auto.
Qed.

Lemma lower_reflects (x : char) (s : str) :
  only_from_itself x = true -> x <> 105 -> x <> 775 ->
  In x (lower s) -> In x s.
Proof.
  intros Hx H105 H775 Hin. unfold lower in Hin.
  apply in_flat_map in Hin as (c & Hc & Hin).
  destruct (lower_char_head c) as (y & rest & E & [(-> & -> & ->)|(_ & -> & ->)]);
    rewrite E in Hin; cbn [In] in Hin.
  - intuition congruence.
  - destruct Hin as [Hin|[]]. apply lowered_from_itself in Hin; [|exact Hx].
    subst c. exact Hc.
Qed.

Lemma lower_reflects_plus (s : str) : In PLUS (lower s) -> In PLUS s.
Proof.
  apply lower_reflects; [vm_compute; reflexivity|discriminate|discriminate].
Qed.

Lemma lower_reflects_leading_minus (s rest : str) :
  lower s = MINUS :: rest -> exists s', s = MINUS :: s'.
Proof.
  destruct s as [|c s]; [discriminate|]. rewrite lower_cons.
  destruct (lower_char_head c) as (y & r & E & [(-> & -> & ->)|(_ & -> & ->)]);
    rewrite E; cbn [app]; intros H; injection H as H _.
  - discriminate H.
  - apply lowered_from_itself in H; [|vm_compute; reflexivity].
    subst c. eauto.
Qed.

Lemma lower_has_no_capital_em (s : str) : ~ In 1052 (lower s).
Proof.
  intros Hin. unfold lower in Hin.
  apply in_flat_map in Hin as (c & _ & Hin).
  destruct (lower_char_head c) as (y & rest & E & [(-> & -> & ->)|(_ & -> & ->)]);
    rewrite E in Hin; cbn [In] in Hin.
  - intuition discriminate.
  - destruct Hin as [Hin|[]].
    assert (Hc : c = 1052) by (apply lowered_from_itself; [vm_compute; reflexivity|exact Hin]).
    subst c. vm_compute in Hin. discriminate Hin.
Qed.

(** ** The classifier, case by case *)

Lemma str_in_chars (p s : str) (c : char) :
  str_in p s = true -> In c p -> In c s.
Proof.
  intros H Hc. apply str_in_spec in H as (pre & suf & ->).
  apply in_or_app. right. apply in_or_app. left. exact Hc.
Qed.

Lemma str_in_longer (q p s : str) :
  startswith q p = true -> str_in p s = true -> str_in q s = true.
Proof.
  intros Hq Hp. apply startswith_spec in Hq as [rest ->].
  apply str_in_spec in Hp as (pre & suf & ->).
  apply str_in_spec. exists pre, (rest ++ suf). rewrite <- app_assoc. reflexivity.
Qed.

Lemma str_in_longer_false (q p s : str) :
  startswith q p = true -> str_in q s = false -> str_in p s = false.
Proof.
  intros Hq Hs. destruct (str_in p s) eqn:E; [|reflexivity].
  rewrite (str_in_longer q p s Hq E) in Hs. discriminate.
Qed.

(** The generic rule is found in a text exactly when one of its three
    spellings occurs in it. *)
Lemma re_search_RE_MK (s : str) :
  re_search RE_MK s
  = str_in (u "мк") s || str_in (u "МК") s || str_in (u "Мк") s.
Proof.
  apply eq_true_iff_eq. rewrite re_search_spec, !orb_true_iff, !str_in_spec.
  unfold RE_MK. cbn [denotes]. split.
  - intros (pre & w & rest & -> & [(w1 & w2 & -> & Hw1 & _)|[Hw|[Hw|Hw]]]).
    + apply denotes_RStr in Hw1. subst w1. left. left.
      exists pre, (w2 ++ rest). rewrite <- app_assoc. reflexivity.
    + apply denotes_RStr in Hw. subst w. left. right. eauto.
    + apply denotes_RStr in Hw. subst w. right. eauto.
    + apply denotes_RStr in Hw. subst w. left. left. eauto.
  - intros [[(pre & suf & ->)|(pre & suf & ->)]|(pre & suf & ->)].
    + exists pre, (u "мк"), suf. split; [reflexivity|].
      right. right. right. apply denotes_RStr. reflexivity.
    + exists pre, (u "МК"), suf. split; [reflexivity|].
      right. left. apply denotes_RStr. reflexivity.
    + exists pre, (u "Мк"), suf. split; [reflexivity|].
      right. right. left. apply denotes_RStr. reflexivity.
Qed.

Lemma re_search_RE_MK_lower (text : str) :
  re_search RE_MK (lower text) = str_in (u "мк") (lower text).
Proof.
  rewrite re_search_RE_MK.
  assert (H1 : str_in (u "МК") (lower text) = false).
  { destruct (str_in (u "МК") (lower text)) eqn:E; [|reflexivity].
    exfalso. apply (lower_has_no_capital_em text).
    apply (str_in_chars _ _ 1052 E). left. reflexivity. }
  assert (H2 : str_in (u "Мк") (lower text) = false).
  { destruct (str_in (u "Мк") (lower text)) eqn:E; [|reflexivity].
    exfalso. apply (lower_has_no_capital_em text).
    apply (str_in_chars _ _ 1052 E). left. reflexivity. }
  rewrite H1, H2, !orb_false_r. reflexivity.
Qed.

Lemma extract_amount_without_mk (text : str) :
  str_in (u "мк") (lower text) = false ->
  extract_amount text = if re_search RE_SIGN (lower text) then 10 else 0.
Proof.
  intros Hmk. unfold extract_amount. rewrite sorted_PRICE_MAP.
  unfold PRICE_MAP. cbn [rev app first_match].
  rewrite !re_search_RStr, re_search_RE_MK_lower, Hmk.
  rewrite !(str_in_longer_false (u "мк") _ (lower text)) by (reflexivity || exact Hmk).
  reflexivity.
Qed.

Lemma re_search_RE_SIGN_lower (text : str) :
  re_search RE_SIGN (lower text) = true <->
  In PLUS text \/ exists s, text = MINUS :: s.
Proof.
  split; [|apply sign_rule_matches].
  intros H. apply re_search_RE_SIGN in H as [H|[s H]].
  - left. apply lower_reflects_plus. exact H.
  - right. eapply lower_reflects_leading_minus. exact H.
Qed.

Lemma extract_amount_with_mk (text : str) :
  str_in (u "мк") (lower text) = true -> 15 <= extract_amount text.
Proof.
  intros Hmk. apply (extract_amount_max text RE_MK).
  - right. left. reflexivity.
  - rewrite re_search_RE_MK_lower. exact Hmk.
Qed.

(** X1.  The three cases of the classifier, read on the text itself: the
    result is 0 exactly when the text has no plus sign, does not begin with
    a minus sign and has no occurrence of the generic marker in lower case;
    it is 10 exactly when the marker is absent and one of the two signs is
    there; it is 15 or more exactly when the marker occurs. *)
Theorem extract_amount_cases (text : str) :
  (extract_amount text = 0 <->
   ~ In PLUS text /\ (forall s, text <> MINUS :: s)
   /\ str_in (u "мк") (lower text) = false)
  /\ (extract_amount text = 10 <->
      (In PLUS text \/ exists s, text = MINUS :: s)
      /\ str_in (u "мк") (lower text) = false)
  /\ (15 <= extract_amount text <-> str_in (u "мк") (lower text) = true).
Proof.
  pose proof (re_search_RE_SIGN_lower text) as Hsign.
  destruct (str_in (u "мк") (lower text)) eqn:Hmk.
  - pose proof (extract_amount_with_mk text Hmk) as H15.
    repeat split; try (intros; lia); try tauto.
  - rewrite (extract_amount_without_mk text Hmk).
    destruct (re_search RE_SIGN (lower text)).
    + assert (Hs : In PLUS text \/ exists s, text = MINUS :: s)
        by (apply Hsign; reflexivity).
      repeat split; try discriminate; try lia; try assumption.
      * intros (Hp & Hm & _). destruct Hs as [Hs|[s Hs]]; [tauto|].
        exfalso. exact (Hm s Hs).
    + assert (Hs : ~ (In PLUS text \/ exists s, text = MINUS :: s))
        by (intros H; apply Hsign in H; discriminate H).
      repeat split; try discriminate; try lia.
      * intros Hp. apply Hs. left. exact Hp.
      * intros s Heq. apply Hs. right. eauto.
      * intros (H & _). contradiction.
Qed.

Lemma extract_amount_image (text : str) :
  extract_amount text = 0 \/ In (extract_amount text) (map snd PRICE_MAP).
Proof.
  unfold extract_amount.
  destruct (first_match_cases (sorted (fun x => - snd x) PRICE_MAP) (lower text))
    as [(before & p & a & after & Hrules & _ & _ & ->)|[_ ->]]; [|left; reflexivity].
  right. apply in_map_iff. exists (p, a). split; [reflexivity|].
  eapply Permutation_in; [symmetry; apply sorted_Permutation|].
  rewrite Hrules. apply in_elt.
Qed.

Lemma extract_amount_bounds (text : str) :
  0 <= extract_amount text <= 91
  /\ (extract_amount text <> 0 -> 10 <= extract_amount text).
Proof.
  destruct (extract_amount_image text) as [->|H]; [lia|].
  cbn [map snd PRICE_MAP In] in H.
  repeat (destruct H as [<-|H]; [lia|]). destruct H.
Qed.

(** X2.  The classifier returns 0 or the amount of one of the rules of
    [PRICE_MAP]; so its result is never negative, never above 91, and at
    least 10 when it is not 0. *)
Theorem extract_amount_range (text : str) :
  (extract_amount text = 0 \/ In (extract_amount text) (map snd PRICE_MAP))
  /\ 0 <= extract_amount text <= 91
  /\ (extract_amount text <> 0 -> 10 <= extract_amount text).
Proof.
  split; [apply extract_amount_image|apply extract_amount_bounds].
Qed.

(** ** The dispatcher, branch by branch *)

Lemma allowed_pairs_threads (chat thread : Z) :
  In (chat, thread) ALLOWED_PAIRS -> thread <> 0.
Proof.
  cbn. intros H.
  repeat (destruct H as [H|H]; [injection H as _ <-; discriminate|]).
  destruct H.
Qed.

(** X3.  No permitted pair has thread 0, so a message that comes without a
    thread id (or with thread id 0) is ignored in every chat: the run is
    empty and the ledger unchanged, whatever the chat and the text. *)
Theorem threadless_message_ignored (w : World) (st : Storage) (m : Message) :
  message_thread_id m = None \/ message_thread_id m = Some 0 ->
  handle_message w st m = mkRun st [] Returned.
Proof.
  intros H. apply handle_message_not_allowed.
  destruct (is_allowed _ _) eqn:E; [|reflexivity].
  apply is_allowed_spec, allowed_pairs_threads in E.
  destruct H as [H|H]; rewrite H in E; cbn in E; congruence.
Qed.

Lemma threadless_message_ignored_witness :
  (message_thread_id (mkMessage (-1002079167705) None 42 (u "+ мк")) = None
   \/ message_thread_id (mkMessage (-1002079167705) None 42 (u "+ мк")) = Some 0)
  /\ handle_message quiet_world ∅ (mkMessage (-1002079167705) None 42 (u "+ мк"))
     = mkRun ∅ [] Returned.
Proof.
  split; [left; reflexivity|].
  apply (threadless_message_ignored quiet_world ∅
           (mkMessage (-1002079167705) None 42 (u "+ мк"))).
  left. reflexivity.
Defined.

(** X4.  In a permitted context, a message with the sign token whose
    amount is not 0 is an income message: the handler returns normally
    whether the direct message is delivered or not; it classifies, credits
    and attempts the direct message with the amount and the new total, and
    does nothing else (no prompt, no provider call, no reply in the chat);
    in the ledger exactly the total of the sender for the date of the clock
    grows, by the amount. *)
Theorem income_message_credits (w : World) (st : Storage) (m : Message) :
  is_allowed (chat_id m) (default 0 (message_thread_id m)) = true ->
  re_search RE_TRIGGER (text m) = true ->
  extract_amount (text m) <> 0 ->
  let r := handle_message w st m in
  let amount := extract_amount (text m) in
  let sender := from_user_id m in
  let before := fst (get_income_today (today w) st sender) in
  status r = Returned
  /\ trace r = [Classified (text m) amount;
                Credited sender amount (before + amount);
                DirectMessage sender (MSG_INCOME amount (before + amount))]
  /\ 10 <= amount
  /\ forall (day : date) (user : Z),
       fst (get_income_today day (storage r) user)
       = fst (get_income_today day st user)
         + (if date_eqb (today w) day && (sender =? user) then amount else 0).
Proof.
  intros Ha Ht Hz r amount sender before. unfold r.
  rewrite (handle_message_income w st m Ha Ht Hz). cbn [status trace storage].
  split; [reflexivity|]. split; [reflexivity|].
  split; [apply extract_amount_bounds; exact Hz|].
  intros day user. apply total_after_add_income.
Qed.

Lemma income_message_credits_witness :
  let m := sample_message (u "+ мк доп синяя") in
  is_allowed (chat_id m) (default 0 (message_thread_id m)) = true
  /\ re_search RE_TRIGGER (text m) = true
  /\ extract_amount (text m) <> 0
  /\ status (handle_message unreachable_world ∅ m) = Returned
  /\ fst (get_income_today sample_day
            (storage (handle_message unreachable_world ∅ m)) 42)
     = fst (get_income_today sample_day ∅ 42) + 23.
Proof.
  intros m.
  assert (Ha : is_allowed (chat_id m) (default 0 (message_thread_id m)) = true)
    by reflexivity.
  assert (Ht : re_search RE_TRIGGER (text m) = true) by reflexivity.
  assert (Hz : extract_amount (text m) <> 0) by (vm_compute; discriminate).
  destruct (income_message_credits unreachable_world ∅ m Ha Ht Hz)
    as (Hs & _ & _ & Htotal).
  split; [exact Ha|]. split; [exact Ht|]. split; [exact Hz|].
  split; [exact Hs|]. exact (Htotal sample_day 42).
Defined.

(** X5.  A plus sign at the beginning of the text or after a whitespace
    character makes the message an income message, whatever else the text
    holds (a phone number with a leading plus sign in an order, say): in a
    permitted context at least 10 is credited to the sender, the provider
    is not called and nothing is replied in the chat. *)
Theorem plus_token_is_income (w : World) (st : Storage) (m : Message)
    (pre suf : str) :
  is_allowed (chat_id m) (default 0 (message_thread_id m)) = true ->
  text m = pre ++ PLUS :: suf ->
  pre = [] \/ (exists pre' sp, pre = pre' ++ [sp] /\ isspace sp = true) ->
  let r := handle_message w st m in
  let sender := from_user_id m in
  10 <= extract_amount (text m)
  /\ (forall prompt, ~ In (CompletionCall prompt) (trace r))
  /\ (forall body, ~ In (Reply body) (trace r))
  /\ fst (get_income_today (today w) (storage r) sender)
     = fst (get_income_today (today w) st sender) + extract_amount (text m).
Proof.
  intros Ha Htext Hpre r sender.
  assert (Ht : re_search RE_TRIGGER (text m) = true).
  { apply re_search_RE_TRIGGER. exists pre, PLUS, suf. auto. }
  assert (Hamount : 10 <= extract_amount (text m)).
  { apply sign_rule_amount. left. rewrite Htext. apply in_elt. }
  assert (Hz : extract_amount (text m) <> 0) by lia.
  unfold r. rewrite (handle_message_income w st m Ha Ht Hz).
  cbn [trace storage]. split; [exact Hamount|].
  split; [intros prompt [H|[H|[H|[]]]]; discriminate H|].
  split; [intros body [H|[H|[H|[]]]]; discriminate H|].
  apply total_after_same_day_credit.
Qed.

Lemma plus_token_is_income_witness :
  let m := sample_message (u "с 14:00 до 16:00, ул. Ленина 5, +375291234567") in
  is_allowed (chat_id m) (default 0 (message_thread_id m)) = true
  /\ 10 <= extract_amount (text m)
  /\ (forall prompt, ~ In (CompletionCall prompt) (trace (handle_message quiet_world ∅ m)))
  /\ fst (get_income_today sample_day (storage (handle_message quiet_world ∅ m)) 42)
     = fst (get_income_today sample_day ∅ 42) + extract_amount (text m).
Proof.
  intros m.
  assert (Ha : is_allowed (chat_id m) (default 0 (message_thread_id m)) = true)
    by reflexivity.
  assert (Htext : text m = u "с 14:00 до 16:00, ул. Ленина 5," ++ [32]
                           ++ PLUS :: u "375291234567")
    by (vm_compute; reflexivity).
  assert (Hpre : u "с 14:00 до 16:00, ул. Ленина 5," ++ [32] = []
                 \/ exists pre' sp,
                      u "с 14:00 до 16:00, ул. Ленина 5," ++ [32] = pre' ++ [sp]
                      /\ isspace sp = true).
  { right. exists (u "с 14:00 до 16:00, ул. Ленина 5,"), 32.
    split; reflexivity. }
  rewrite app_assoc in Htext.
  destruct (plus_token_is_income quiet_world ∅ m _ _ Ha Htext Hpre)
    as (Hamount & Hcall & _ & Htotal).
  split; [exact Ha|]. split; [exact Hamount|]. split; [exact Hcall|exact Htotal].
Defined.

Lemma handle_message_cases (w : World) (st : Storage) (m : Message) :
  handle_message w st m = mkRun st [] Returned
  \/ (exists before, handle_message w st m = order_path w st before (text m))
  \/ (is_allowed (chat_id m) (default 0 (message_thread_id m)) = true
      /\ re_search RE_TRIGGER (text m) = true
      /\ extract_amount (text m) <> 0).
Proof.
  destruct (is_allowed (chat_id m) (default 0 (message_thread_id m))) eqn:Ha.
  - destruct (re_search RE_TRIGGER (text m)) eqn:Ht.
    + destruct (Z.eq_dec (extract_amount (text m)) 0) as [Hz|Hz].
      * right. left. eexists. apply handle_message_zero; assumption.
      * right. right. auto.
    + right. left. eexists. apply handle_message_order; assumption.
  - left. apply handle_message_not_allowed. exact Ha.
Qed.

(** X6.  No run of the handler lowers a total of the ledger: for every
    user and date the total after the run is the total before or up to 91
    more.  Off the income branch (context not permitted, no sign token, or
    amount 0) every total is the one before. *)
Theorem handle_message_never_decreases (w : World) (st : Storage) (m : Message) :
  (forall (day : date) (user : Z),
      fst (get_income_today day st user)
      <= fst (get_income_today day (storage (handle_message w st m)) user)
      <= fst (get_income_today day st user) + 91)
  /\ (is_allowed (chat_id m) (default 0 (message_thread_id m)) = false
      \/ re_search RE_TRIGGER (text m) = false
      \/ extract_amount (text m) = 0 ->
      storage (handle_message w st m) = st).
Proof.
  destruct (handle_message_cases w st m) as [E|[[before E]|(Ha & Ht & Hz)]].
  - rewrite E. cbn [storage]. split; [intros; lia|reflexivity].
  - rewrite E. destruct (order_path_run w st before (text m)) as [-> _].
    split; [intros; lia|reflexivity].
  - split.
    + intros day user.
      rewrite (handle_message_income w st m Ha Ht Hz). cbn [storage].
      rewrite total_after_add_income.
      pose proof (extract_amount_bounds (text m)) as (Hr & _).
      destruct (date_eqb (today w) day && (from_user_id m =? user)); lia.
    + intros [H|[H|H]]; congruence.
Qed.

Lemma order_path_status (w : World) (st : Storage) (before : list event)
    (user_text : str) :
  let prompt := replace (u "{text}") user_text PROMPT_TEMPLATE in
  let r := order_path w st before user_text in
  (reply_text w MSG_ERROR = true -> status r = Returned)
  /\ (status r = Raised ->
      reply_text w MSG_ERROR = false
      /\ exists events, trace r = events ++ [LoggedError; Reply MSG_ERROR])
  /\ (In LoggedError (trace r) <->
      In LoggedError before
      \/ completion w prompt = None
      \/ exists content,
           completion w prompt = Some content
           /\ reply_text w (outcome_reply (validate (extract_fields (strip content))))
              = false).
Proof.
  intros prompt r. unfold r, order_path. fold prompt.
  destruct (completion w prompt) as [content|].
  - set (body := outcome_reply (validate (extract_fields (strip content)))).
    destruct (reply_text w body) eqn:Hb.
    + cbn [status trace]. split; [reflexivity|]. split; [discriminate|].
      rewrite !in_app_iff. cbn [In]. split.
      * intros H. left.
        repeat (destruct H as [H|H]); try discriminate H; tauto.
      * intros [H|[H|(c & Hc & Hr)]]; [tauto|discriminate H|].
        injection Hc as <-. fold body in Hr. congruence.
    + rewrite on_exception_run. cbn [status trace].
      split; [intros ->; reflexivity|]. split.
      * intros H. destruct (reply_text w MSG_ERROR); [discriminate H|].
        split; [reflexivity|]. eexists. reflexivity.
      * rewrite !in_app_iff. cbn [In]. split; [|tauto].
        intros _. right. right. exists content. auto.
  - rewrite on_exception_run. cbn [status trace].
    split; [intros ->; reflexivity|]. split.
    + intros H. destruct (reply_text w MSG_ERROR); [discriminate H|].
      split; [reflexivity|]. eexists. reflexivity.
    + rewrite !in_app_iff. cbn [In]. split; [|tauto]. auto.
Qed.

(** X7.  The handler lets an exception out only when the generic error
    reply itself cannot be sent: when that reply can be delivered every run
    returns normally; a run that raises has logged the error and ends with
    the attempt of the error reply. *)
Theorem handler_raises_only_on_failed_error_reply
    (w : World) (st : Storage) (m : Message) :
  (reply_text w MSG_ERROR = true -> status (handle_message w st m) = Returned)
  /\ (status (handle_message w st m) = Raised ->
      reply_text w MSG_ERROR = false
      /\ exists events,
           trace (handle_message w st m) = events ++ [LoggedError; Reply MSG_ERROR]).
Proof.
  destruct (handle_message_cases w st m) as [E|[[before E]|(Ha & Ht & Hz)]].
  - rewrite E. cbn [status]. split; [reflexivity|discriminate].
  - rewrite E. destruct (order_path_status w st before (text m)) as (H1 & H2 & _).
    split; assumption.
  - rewrite (handle_message_income w st m Ha Ht Hz). cbn [status].
    split; [reflexivity|discriminate].
Qed.

Lemma handler_raises_only_on_failed_error_reply_witness :
  reply_text unreachable_world MSG_ERROR = false
  /\ status (handle_message unreachable_world ∅ (sample_message (u "ул. Ленина 5")))
     = Raised
  /\ reply_text quiet_world MSG_ERROR = true
  /\ status (handle_message quiet_world ∅ (sample_message (u "ул. Ленина 5")))
     = Returned.
Proof.
  destruct (handler_raises_only_on_failed_error_reply quiet_world ∅
              (sample_message (u "ул. Ленина 5"))) as [Hret _].
  split; [reflexivity|]. split; [vm_compute; reflexivity|].
  split; [reflexivity|]. apply Hret. reflexivity.
Defined.

(** X8.  For a message that takes the order path (permitted context, and
    no sign token or amount 0), an error is logged exactly when the call of
    the provider fails or the reply of the validation outcome cannot be
    sent; the ledger is unchanged. *)
Theorem order_errors_logged (w : World) (st : Storage) (m : Message) :
  is_allowed (chat_id m) (default 0 (message_thread_id m)) = true ->
  re_search RE_TRIGGER (text m) = false \/ extract_amount (text m) = 0 ->
  let prompt := replace (u "{text}") (text m) PROMPT_TEMPLATE in
  let r := handle_message w st m in
  storage r = st
  /\ In (CompletionCall prompt) (trace r)
  /\ (In LoggedError (trace r) <->
      completion w prompt = None
      \/ exists content,
           completion w prompt = Some content
           /\ reply_text w (outcome_reply (validate (extract_fields (strip content))))
              = false).
Proof.
  intros Ha Hcase prompt r.
  assert (E : exists before,
             r = order_path w st before (text m) /\ ~ In LoggedError before).
  { destruct (re_search RE_TRIGGER (text m)) eqn:Ht.
    - destruct Hcase as [H|Hz]; [discriminate H|].
      exists [Classified (text m) 0]. split.
      + apply handle_message_zero; assumption.
      + intros [H|[]]. discriminate H.
    - exists []. split; [apply handle_message_order; assumption|intros []]. }
  destruct E as (before & -> & Hbefore).
  destruct (order_path_run w st before (text m)) as (Hst & tail & Htrace & _).
  destruct (order_path_status w st before (text m)) as (_ & _ & Hlog).
  split; [exact Hst|]. split.
  - rewrite Htrace. apply in_or_app. right. right. left. reflexivity.
  - fold prompt in Hlog. rewrite Hlog. tauto.
Qed.

Lemma order_errors_logged_witness :
  let m := sample_message (u "ул. Ленина 5") in
  is_allowed (chat_id m) (default 0 (message_thread_id m)) = true
  /\ (re_search RE_TRIGGER (text m) = false \/ extract_amount (text m) = 0)
  /\ completion unreachable_world (replace (u "{text}") (text m) PROMPT_TEMPLATE) = None
  /\ In LoggedError (trace (handle_message unreachable_world ∅ m)).
Proof.
  intros m.
  assert (Ha : is_allowed (chat_id m) (default 0 (message_thread_id m)) = true)
    by reflexivity.
  assert (Hc : re_search RE_TRIGGER (text m) = false \/ extract_amount (text m) = 0)
    by (left; reflexivity).
  destruct (order_errors_logged unreachable_world ∅ m Ha Hc) as (_ & _ & Hlog).
  split; [exact Ha|]. split; [exact Hc|]. split; [reflexivity|].
  apply Hlog. left. reflexivity.
Defined.

(** ** Messages in sequence and the income command *)

Lemma total_after_message (w : World) (st : Storage) (m : Message) (user : Z) :
  fst (get_income_today (today w) (storage (handle_message w st m)) user)
  = fst (get_income_today (today w) st user) + credit_of user m.
Proof.
  unfold credit_of.
  destruct (is_allowed (chat_id m) (default 0 (message_thread_id m))) eqn:Ha.
  - destruct (re_search RE_TRIGGER (text m)) eqn:Ht; cbn [andb].
    + destruct (Z.eq_dec (extract_amount (text m)) 0) as [Hz|Hz].
      * rewrite (handle_message_zero w st m Ha Ht Hz), Hz.
        destruct (order_path_run w st [Classified (text m) 0] (text m)) as [-> _].
        destruct (from_user_id m =? user); lia.
      * rewrite (handle_message_income w st m Ha Ht Hz). cbn [storage].
        rewrite total_after_add_income.
        rewrite (proj2 (date_eqb_eq _ _) eq_refl). reflexivity.
    + rewrite (handle_message_order w st m Ha Ht).
      destruct (order_path_run w st [] (text m)) as [-> _]. lia.
  - rewrite (handle_message_not_allowed w st m Ha). cbn [storage andb]. lia.
Qed.

Lemma total_after_messages (w : World) (user : Z) (messages : list Message) :
  forall st : Storage,
  fst (get_income_today (today w) (run_messages w st messages) user)
  = fst (get_income_today (today w) st user) + credits_of user messages.
Proof.
  induction messages as [|m messages IH]; intros st.
  - unfold run_messages. cbn [fold_left credits_of fold_right]. lia.
  - unfold run_messages. cbn [fold_left credits_of fold_right].
    fold (run_messages w (storage (handle_message w st m)) messages).
    fold (credits_of user messages).
    rewrite IH, total_after_message. lia.
Qed.

(** X9.  After any sequence of messages handled on one date, the total of
    a user for that date is the total before plus the amounts of the
    messages of that user that came in a permitted context with the sign
    token; the income command then replies with exactly that total, and
    leaves every total of the ledger as it is. *)
Theorem income_command_reports_credits
    (w : World) (st : Storage) (messages : list Message) (user : Z) :
  let st' := run_messages w st messages in
  let total := fst (get_income_today (today w) st user) + credits_of user messages in
  fst (get_income_today (today w) st' user) = total
  /\ trace (handle_dohod w st' user) = [Reply (MSG_TODAY total)]
  /\ forall (day : date) (other : Z),
       fst (get_income_today day (storage (handle_dohod w st' user)) other)
       = fst (get_income_today day st' other).
Proof.
  intros st' total.
  assert (Htotal : fst (get_income_today (today w) st' user) = total)
    by apply total_after_messages.
  split; [exact Htotal|].
  rewrite handle_dohod_run. cbn [trace storage]. rewrite Htotal.
  split; [reflexivity|].
  intros day other. apply total_after_query.
Qed.

(** ** Stripping *)

Lemma lstrip_cases (s : str) :
  lstrip s = [] \/ exists c rest, lstrip s = c :: rest /\ isspace c = false.
Proof.
  induction s as [|c s IH]; cbn [lstrip]; [left; reflexivity|].
  destruct (isspace c) eqn:E; [exact IH|]. right. eauto.
Qed.

Lemma lstrip_unspaced (c : char) (s : str) :
  isspace c = false -> lstrip (c :: s) = c :: s.
Proof. intros H. cbn [lstrip]. rewrite H. reflexivity. Qed.

Lemma lstrip_idempotent (s : str) : lstrip (lstrip s) = lstrip s.
Proof.
  destruct (lstrip_cases s) as [->|(c & rest & -> & Hc)]; [reflexivity|].
  apply lstrip_unspaced. exact Hc.
Qed.

Lemma lstrip_snoc (s : str) (c : char) :
  isspace c = false -> lstrip (s ++ [c]) = lstrip s ++ [c].
Proof.
  intros Hc. induction s as [|a s IH]; cbn [app lstrip].
  - rewrite Hc. reflexivity.
  - destruct (isspace a); [exact IH|reflexivity].
Qed.

Lemma rstrip_cons (c : char) (s : str) :
  isspace c = false -> rstrip (c :: s) = c :: rstrip s.
Proof.
  intros Hc. unfold rstrip. cbn [rev].
  rewrite lstrip_snoc by exact Hc. rewrite rev_app_distr. reflexivity.
Qed.

Lemma rstrip_idempotent (s : str) : rstrip (rstrip s) = rstrip s.
Proof. unfold rstrip. rewrite rev_involutive, lstrip_idempotent. reflexivity. Qed.

Lemma lstrip_strip (s : str) : lstrip (strip s) = strip s.
Proof.
  unfold strip.
  destruct (lstrip_cases s) as [->|(c & rest & -> & Hc)]; [reflexivity|].
  rewrite rstrip_cons by exact Hc. apply lstrip_unspaced. exact Hc.
Qed.

Lemma strip_idempotent (s : str) : strip (strip s) = strip s.
Proof.
  unfold strip at 1. rewrite lstrip_strip. unfold strip.
  apply rstrip_idempotent.
Qed.

Lemma strip_unspaced (s : str) :
  Forall (fun c => isspace c = false) s -> strip s = s.
Proof.
  intros H. unfold strip.
  assert (Hl : forall t : str, Forall (fun c => isspace c = false) t -> lstrip t = t).
  { intros t Ht. destruct Ht as [|c t Hc _]; [reflexivity|].
    apply lstrip_unspaced. exact Hc. }
  rewrite (Hl s H). unfold rstrip.
  rewrite Hl by (apply Forall_rev; exact H). apply rev_involutive.
Qed.

Lemma strip_blank (s : str) :
  Forall (fun c => isspace c = true) s -> strip s = [].
Proof.
  intros H. unfold strip.
  assert (Hl : lstrip s = []).
  { induction H as [|c s Hc _ IH]; [reflexivity|]. cbn [lstrip]. rewrite Hc. exact IH. }
  rewrite Hl. reflexivity.
Qed.

(** Stripping removes nothing that a filter away from whitespace keeps. *)
Section FilterStrip.
Variable keep : char -> bool.
Hypothesis keep_not_space : forall c, isspace c = true -> keep c = false.

Lemma filter_lstrip (s : str) : List.filter keep (lstrip s) = List.filter keep s.
Proof.
  induction s as [|c s IH]; cbn [lstrip List.filter]; [reflexivity|].
  destruct (isspace c) eqn:E; [|reflexivity].
  rewrite (keep_not_space c E). exact IH.
Qed.

Lemma filter_strip (s : str) : List.filter keep (strip s) = List.filter keep s.
Proof.
  unfold strip, rstrip.
  rewrite filter_rev, filter_lstrip, filter_rev, rev_involutive.
  apply filter_lstrip.
Qed.

Lemma filtered_unspaced (s : str) :
  Forall (fun c => isspace c = false) (List.filter keep s).
Proof.
  apply List.Forall_forall. intros c Hc. apply filter_In in Hc as [_ Hc].
  destruct (isspace c) eqn:E; [|reflexivity].
  rewrite (keep_not_space c E) in Hc. discriminate.
Qed.
End FilterStrip.

Lemma space_not_digit_or_plus (c : char) :
  isspace c = true -> isdigit c || chr_eqb c PLUS = false.
Proof.
  unfold isspace. intros H. apply existsb_exists in H as (x & Hx & Hc).
  apply chr_eqb_eq in Hc. subst x.
  assert (Hall : forallb (fun x => negb (isdigit x || chr_eqb x PLUS)) WHITESPACE = true)
    by (vm_compute; reflexivity).
  rewrite forallb_forall in Hall. specialize (Hall c Hx).
  apply negb_true_iff in Hall. exact Hall.
Qed.

Lemma space_not_digit (c : char) : isspace c = true -> isdigit c = false.
Proof.
  intros H. apply space_not_digit_or_plus in H.
  apply orb_false_iff in H. tauto.
Qed.

Lemma digits_of_kept (s : str) :
  List.filter isdigit (List.filter (fun c => isdigit c || chr_eqb c PLUS) s)
  = List.filter isdigit s.
Proof.
  induction s as [|c s IH]; [reflexivity|]. cbn [List.filter].
  destruct (isdigit c) eqn:E; cbn [orb List.filter].
  - rewrite E, IH. reflexivity.
  - destruct (chr_eqb c PLUS); cbn [List.filter]; rewrite ?E; exact IH.
Qed.

Lemma digits_of_extracted_phone (line : str) :
  List.filter isdigit (re_sub_delete not_digit_or_plus (strip line))
  = List.filter isdigit line.
Proof.
  rewrite re_sub_delete_keeps, digits_of_kept.
  apply filter_strip. exact space_not_digit.
Qed.

(** ** Phone numbers *)

Lemma is_valid_phone_digits (a : str) :
  is_valid_phone a = is_valid_phone (List.filter isdigit a).
Proof.
  unfold is_valid_phone. rewrite !re_sub_delete_non_digits.
  assert (E : List.filter isdigit (List.filter isdigit a) = List.filter isdigit a).
  { apply forallb_filter_id, forallb_filter. }
  rewrite E. reflexivity.
Qed.

(** X10.  The verdict of the phone validator depends on the digits of its
    input only: two inputs with the same digits in the same order get the
    same verdict, whatever separators, brackets, letters or plus signs they
    hold.  In particular the phone that the extractor takes from a line is
    valid exactly when the whole line is. *)
Theorem is_valid_phone_ignores_formatting :
  (forall a b : str,
      List.filter isdigit a = List.filter isdigit b ->
      is_valid_phone a = is_valid_phone b)
  /\ (forall line : str,
        is_valid_phone (re_sub_delete not_digit_or_plus (strip line))
        = is_valid_phone line).
Proof.
  split.
  - intros a b H. rewrite (is_valid_phone_digits a), (is_valid_phone_digits b), H.
    reflexivity.
  - intros line.
    rewrite (is_valid_phone_digits line), is_valid_phone_digits.
    rewrite digits_of_extracted_phone. reflexivity.
Qed.

Lemma is_valid_phone_ignores_formatting_witness :
  List.filter isdigit (u "+375 (29) 123-45-67") = List.filter isdigit (u "375291234567")
  /\ is_valid_phone (u "+375 (29) 123-45-67") = is_valid_phone (u "375291234567").
Proof.
  destruct is_valid_phone_ignores_formatting as [H _].
  assert (E : List.filter isdigit (u "+375 (29) 123-45-67")
              = List.filter isdigit (u "375291234567"))
    by (vm_compute; reflexivity).
  split; [exact E|]. apply H. exact E.
Defined.

(** ** Order validator *)

(** X11.  An order is accepted exactly when its address holds a digit, its
    interval is not empty and its phone is not empty and valid; the
    accepted text is then the four-line rendering of the record.  A
    missing-fields rejection never has an empty list. *)
Theorem validate_accepts_exactly (data : Fields) :
  (forall formatted : str,
      validate data = Accepted formatted <->
      formatted = format_order data
      /\ has_digit (address data) = true
      /\ interval data <> []
      /\ phone data <> []
      /\ is_valid_phone (phone data) = true)
  /\ (forall missing, validate data = RejectedMissingFields missing -> missing <> []).
Proof.
  rewrite validate_missing. unfold spec_missing.
  generalize LABEL_ADDRESS as la, LABEL_INTERVAL as li, LABEL_PHONE as lp.
  generalize (format_order data) as rendering.
  intros rendering la li lp.
  assert (Hd : has_digit (address data) = true -> is_empty (address data) = false).
  { destruct (address data); [discriminate|reflexivity]. }
  destruct (has_digit (address data)) eqn:Ed;
    [rewrite (Hd eq_refl)|rewrite orb_true_r]; clear Hd;
    destruct (interval data) as [|i0 i]; destruct (phone data) as [|p0 p];
    cbn [is_empty negb andb orb app];
    try destruct (is_valid_phone (p0 :: p)); cbn [negb andb];
    (split; [intros formatted; split;
             [intros H; try discriminate H; injection H as <-;
              repeat split; congruence
             |intros (-> & H1 & H2 & H3 & H4); congruence]
            |intros missing H; try discriminate H; injection H as <-; discriminate]).
Qed.

(** ** Field extractor: what the record can hold *)

Lemma spec_slot_cases (before : str) (f : field) (lines : list str) :
  spec_slot before f lines = before
  \/ exists line, In line lines /\ spec_field_of line = f
       /\ spec_slot before f lines = spec_value f line.
Proof.
  unfold spec_slot.
  destruct (rev (List.filter (fun l => field_eqb (spec_field_of l) f) lines))
    as [|line rest] eqn:E; [left; reflexivity|].
  right. exists line.
  assert (Hin : In line (List.filter (fun l => field_eqb (spec_field_of l) f) lines)).
  { apply in_rev. rewrite E. left. reflexivity. }
  apply filter_In in Hin as [Hin Hf].
  split; [exact Hin|]. split; [|reflexivity].
  destruct (spec_field_of line), f; try discriminate Hf; reflexivity.
Qed.

Lemma phone_line_has_run (line : str) :
  spec_field_of line = FPhone -> anywhere phone_here line = true.
Proof.
  unfold spec_field_of.
  destruct (anywhere hhmm_here line
            || str_in KW_SOON (lower line) || str_in KW_ASAP (lower line));
    [discriminate|].
  destruct (str_in COMMENT_MARKER line); [discriminate|].
  destruct (anywhere phone_here line); [reflexivity|discriminate].
Qed.

Lemma digits_of_run (line : str) :
  anywhere phone_here line = true ->
  (7 <= length (List.filter isdigit line))%nat.
Proof.
  intros H. apply has_digit_run_spec in H as (pre & run & suf & -> & Hlen & Hall).
  rewrite !List.filter_app, !length_app.
  assert (E : List.filter isdigit run = run).
  { apply forallb_filter_id. apply forallb_forall.
    rewrite List.Forall_forall in Hall. exact Hall. }
  rewrite E. lia.
Qed.

(** X12.  The phone of the extracted record is empty (no line was a phone
    line) or consists of digits and plus signs only and has at least seven
    digits. *)
Theorem extracted_phone_shape (text : str) :
  phone (extract_fields text) = []
  \/ (Forall (fun c => isdigit c = true \/ c = PLUS) (phone (extract_fields text))
      /\ (7 <= length (List.filter isdigit (phone (extract_fields text))))%nat).
Proof.
  rewrite extract_fields_refines. unfold spec_extract_fields. cbn [phone].
  destruct (spec_slot_cases [] FPhone (split [NEWLINE] (strip text)))
    as [->|(line & _ & Hf & ->)]; [left; reflexivity|].
  right. cbn [spec_value]. split.
  - apply List.Forall_forall. intros c Hc. apply filter_In in Hc as [_ Hc].
    apply orb_true_iff in Hc as [Hc|Hc]; [left; exact Hc|].
    right. apply chr_eqb_eq. exact Hc.
  - rewrite <- re_sub_delete_keeps, digits_of_extracted_phone.
    apply digits_of_run, phone_line_has_run. exact Hf.
Qed.

Lemma spec_value_stripped (f : field) (line : str) :
  strip (spec_value f line) = spec_value f line.
Proof.
  destruct f; cbn [spec_value]; try apply strip_idempotent.
  apply strip_unspaced.
  apply (filtered_unspaced (fun c => isdigit c || chr_eqb c PLUS)).
  exact space_not_digit_or_plus.
Qed.

Lemma spec_slot_stripped (f : field) (lines : list str) :
  strip (spec_slot [] f lines) = spec_slot [] f lines.
Proof.
  destruct (spec_slot_cases [] f lines) as [->|(line & _ & _ & ->)];
    [reflexivity|apply spec_value_stripped].
Qed.

(** X13.  Every field of the extracted record is free of whitespace at
    both ends: stripping it again changes nothing.  The extractor strips
    the text itself, so stripping the completion beforehand, as the handler
    does, does not change the result. *)
Theorem extracted_fields_stripped (text : str) :
  strip (interval (extract_fields text)) = interval (extract_fields text)
  /\ strip (address (extract_fields text)) = address (extract_fields text)
  /\ strip (phone (extract_fields text)) = phone (extract_fields text)
  /\ strip (comment (extract_fields text)) = comment (extract_fields text)
  /\ extract_fields (strip text) = extract_fields text.
Proof.
  rewrite extract_fields_refines. unfold spec_extract_fields.
  cbn [interval address phone comment].
  repeat (split; [apply spec_slot_stripped|]).
  rewrite extract_fields_refines. unfold spec_extract_fields.
  rewrite strip_idempotent. reflexivity.
Qed.

Lemma extract_fields_blank : extract_fields [] = mkFields [] [] [] [].
Proof. vm_compute. reflexivity. Qed.

(** X14.  A completion that is empty or holds whitespace only gives the
    record with four empty fields, and the order is rejected with all three
    labels: address, interval, phone. *)
Theorem blank_completion_rejected (content : str) :
  Forall (fun c => isspace c = true) content ->
  extract_fields (strip content) = mkFields [] [] [] []
  /\ validate (extract_fields (strip content))
     = RejectedMissingFields [LABEL_ADDRESS; LABEL_INTERVAL; LABEL_PHONE].
Proof.
  intros H. rewrite (strip_blank content H), extract_fields_blank.
  split; reflexivity.
Qed.

Lemma blank_completion_rejected_witness :
  Forall (fun c => isspace c = true) [32; 10; 9; 160]
  /\ validate (extract_fields (strip [32; 10; 9; 160]))
     = RejectedMissingFields [LABEL_ADDRESS; LABEL_INTERVAL; LABEL_PHONE].
Proof.
  assert (H : Forall (fun c => isspace c = true) [32; 10; 9; 160])
    by (repeat constructor).
  split; [exact H|]. apply (blank_completion_rejected _ H).
Defined.

(** ** Lines and fields *)

Lemma filled_extract_line (fields : Fields) (line : str) :
  (filled (extract_line fields line) <= S (filled fields))%nat.
Proof.
  rewrite extract_line_spec.
  generalize (spec_value (spec_field_of line) line) as v. intros v.
  destruct (spec_field_of line); unfold put, filled;
    cbn [interval address phone comment];
    destruct (is_empty v), (is_empty (interval fields)),
      (is_empty (address fields)), (is_empty (phone fields)),
      (is_empty (comment fields)); lia.
Qed.

Lemma filled_fold (lines : list str) : forall f0 : Fields,
  (filled (fold_left extract_line lines f0) <= filled f0 + length lines)%nat.
Proof.
  induction lines as [|line lines IH]; intros f0; cbn [fold_left length].
  - lia.
  - specialize (IH (extract_line f0 line)).
    pose proof (filled_extract_line f0 line). lia.
Qed.

Lemma accepted_is_filled (data : Fields) (formatted : str) :
  validate data = Accepted formatted -> (3 <= filled data)%nat.
Proof.
  rewrite validate_missing. unfold spec_missing, filled.
  generalize LABEL_ADDRESS as la, LABEL_INTERVAL as li, LABEL_PHONE as lp.
  intros la li lp.
  destruct (is_empty (address data)); cbn [orb];
    [|destruct (negb (has_digit (address data)))];
    destruct (is_empty (interval data)); destruct (is_empty (phone data));
    cbn [negb andb app];
    try destruct (is_valid_phone (phone data)); cbn [negb];
    destruct (is_empty (comment data));
    intros H; try discriminate H; lia.
Qed.

Lemma split_go_char_length (c : char) : forall (s cur : str),
  length (split_go [c] 0 cur s) = S (length (List.filter (chr_eqb c) s)).
Proof.
  induction s as [|x s IH]; intros cur; [reflexivity|].
  cbn [split_go startswith List.filter length Nat.pred].
  destruct (chr_eqb c x); cbn [andb length]; rewrite IH; reflexivity.
Qed.

(** X15.  The number of fields that are not empty is at most the number of
    lines of the stripped completion, since every line sets one field; an
    order can therefore be accepted only when the completion has at least
    three lines, that is, at least two newline characters inside. *)
Theorem acceptance_needs_three_lines (text : str) :
  (filled (extract_fields text) <= length (split [NEWLINE] (strip text)))%nat
  /\ length (split [NEWLINE] (strip text))
     = S (length (List.filter (chr_eqb NEWLINE) (strip text)))
  /\ forall formatted,
       validate (extract_fields text) = Accepted formatted ->
       (2 <= length (List.filter (chr_eqb NEWLINE) (strip text)))%nat.
Proof.
  assert (H1 : (filled (extract_fields text)
                <= length (split [NEWLINE] (strip text)))%nat).
  { unfold extract_fields.
    pose proof (filled_fold (split [NEWLINE] (strip text)) (mkFields [] [] [] [])) as H.
    exact H. }
  assert (H2 : length (split [NEWLINE] (strip text))
               = S (length (List.filter (chr_eqb NEWLINE) (strip text))))
    by apply split_go_char_length.
  split; [exact H1|]. split; [exact H2|].
  intros formatted Hacc. apply accepted_is_filled in Hacc. lia.
Qed.

Lemma no_address_line_after (lines : list str) :
  Forall (fun l => spec_field_of l <> FAddress) lines ->
  List.filter (fun l => field_eqb (spec_field_of l) FAddress) lines = [].
Proof.
  induction 1 as [|line lines Hl _ IH]; [reflexivity|]. cbn [List.filter].
  destruct (spec_field_of line); cbn [field_eqb]; try exact IH. congruence.
Qed.

(** X16.  An empty line is an address line, and the address is taken from
    the last address line: when the stripped completion has an empty line
    after which no line is an address line, the extracted address is empty
    and the order is not accepted, whatever address an earlier line gave. *)
Theorem blank_line_erases_address (text : str) (lines1 lines2 : list str) :
  split [NEWLINE] (strip text) = lines1 ++ [] :: lines2 ->
  Forall (fun l => spec_field_of l <> FAddress) lines2 ->
  address (extract_fields text) = []
  /\ forall formatted, validate (extract_fields text) <> Accepted formatted.
Proof.
  intros Hsplit Hafter.
  assert (Ha : address (extract_fields text) = []).
  { rewrite extract_fields_refines. unfold spec_extract_fields. cbn [address].
    rewrite Hsplit. unfold spec_slot.
    rewrite List.filter_app. cbn [List.filter].
    rewrite (no_address_line_after lines2 Hafter).
    replace (field_eqb (spec_field_of []) FAddress) with true
      by (vm_compute; reflexivity).
    rewrite rev_unit. reflexivity. }
  split; [exact Ha|].
  intros formatted Hacc. rewrite validate_missing in Hacc.
  unfold spec_missing in Hacc. rewrite Ha in Hacc. cbn [is_empty orb app] in Hacc.
  destruct (negb (is_empty (phone (extract_fields text)))
            && negb (is_valid_phone (phone (extract_fields text))));
    discriminate Hacc.
Qed.

Lemma blank_line_erases_address_witness :
  let text := join [NEWLINE]
                [u "с 14:00 до 16:00"; u "ул. Ленина 5"; []; u "+375291234567"] in
  split [NEWLINE] (strip text)
  = [u "с 14:00 до 16:00"; u "ул. Ленина 5"] ++ [] :: [u "+375291234567"]
  /\ Forall (fun l => spec_field_of l <> FAddress) [u "+375291234567"]
  /\ address (extract_fields text) = []
  /\ validate (extract_fields text) = RejectedMissingFields [LABEL_ADDRESS].
Proof.
  intros text.
  assert (Hs : split [NEWLINE] (strip text)
               = [u "с 14:00 до 16:00"; u "ул. Ленина 5"] ++ [] :: [u "+375291234567"])
    by (vm_compute; reflexivity).
  assert (Hf : Forall (fun l => spec_field_of l <> FAddress) [u "+375291234567"]).
  { constructor; [|constructor]. vm_compute. discriminate. }
  destruct (blank_line_erases_address text _ _ Hs Hf) as [Ha _].
  split; [exact Hs|]. split; [exact Hf|]. split; [exact Ha|].
  vm_compute. reflexivity.
Defined.

(** ** Prompt *)

(** X17.  The prompt is the template with its placeholder replaced by the
    text of the message, once and verbatim: whatever the text holds (the
    placeholder itself included), the prompt is the part of the template
    before the placeholder, the text, and the final newline. *)
Theorem prompt_embeds_text (user_text : str) :
  replace (u "{text}") user_text PROMPT_TEMPLATE
  = firstn (length PROMPT_TEMPLATE - 7) PROMPT_TEMPLATE ++ user_text ++ [NEWLINE]
  /\ PROMPT_TEMPLATE
     = firstn (length PROMPT_TEMPLATE - 7) PROMPT_TEMPLATE ++ u "{text}" ++ [NEWLINE].
Proof. split; vm_compute; reflexivity. Qed.

(** ** Priorities at the edges *)

(** X18.  The test for a time of day comes first: a line that holds one
    digit, a colon and two digits anywhere becomes the interval, stripped,
    and no other field changes, also when the line holds the comment marker
    or a phone number. *)
Theorem clock_line_is_interval (fields : Fields) (line pre suf : str)
    (h m1 m2 : char) :
  line = pre ++ h :: COLON :: m1 :: m2 :: suf ->
  isdigit h = true -> isdigit m1 = true -> isdigit m2 = true ->
  extract_line fields line
  = mkFields (strip line) (address fields) (phone fields) (comment fields).
Proof.
  intros Hline Hh Hm1 Hm2.
  assert (Hclock : anywhere hhmm_here line = true).
  { apply has_clock_spec. exists pre, h, m1, m2, suf. auto. }
  unfold extract_line. rewrite re_search_RE_TIME, Hclock. reflexivity.
Qed.

Lemma clock_line_is_interval_witness :
  let line := u "Комментарий заказчика: позвонить в 9:30" in
  str_in COMMENT_MARKER line = true
  /\ extract_line (mkFields (u "с 14:00 до 16:00") [] [] []) line
     = mkFields line [] [] [].
Proof.
  intros line. split; [vm_compute; reflexivity|].
  assert (E : strip line = line) by (vm_compute; reflexivity).
  assert (Hline : line = u "Комментарий заказчика: позвонить в "
                         ++ 57 :: COLON :: 51 :: 48 :: [])
    by (vm_compute; reflexivity).
  assert (Hd : isdigit 57 = true /\ isdigit 51 = true /\ isdigit 48 = true)
    by (vm_compute; auto).
  destruct Hd as (H9 & H3 & H0).
  pose proof (clock_line_is_interval (mkFields (u "с 14:00 до 16:00") [] [] [])
                line _ _ _ _ _ Hline H9 H3 H0) as H.
  cbn [address phone comment] in H. rewrite E in H. exact H.
Defined.

(** X19.  A text that begins with a minus sign is an income message, too,
    and its amount is added, not subtracted: in a permitted context at least
    10 is credited to the sender and the provider is not called. *)
Theorem leading_minus_is_income (w : World) (st : Storage) (m : Message)
    (rest : str) :
  is_allowed (chat_id m) (default 0 (message_thread_id m)) = true ->
  text m = MINUS :: rest ->
  let r := handle_message w st m in
  let sender := from_user_id m in
  10 <= extract_amount (text m)
  /\ (forall prompt, ~ In (CompletionCall prompt) (trace r))
  /\ fst (get_income_today (today w) (storage r) sender)
     = fst (get_income_today (today w) st sender) + extract_amount (text m).
Proof.
  intros Ha Htext r sender.
  assert (Ht : re_search RE_TRIGGER (text m) = true).
  { apply re_search_RE_TRIGGER. exists [], MINUS, rest. auto. }
  assert (Hamount : 10 <= extract_amount (text m)).
  { apply sign_rule_amount. right. eauto. }
  assert (Hz : extract_amount (text m) <> 0) by lia.
  unfold r. rewrite (handle_message_income w st m Ha Ht Hz).
  cbn [trace storage]. split; [exact Hamount|].
  split; [intros prompt [H|[H|[H|[]]]]; discriminate H|].
  apply total_after_same_day_credit.
Qed.

Lemma leading_minus_is_income_witness :
  let m := sample_message (u "-5") in
  is_allowed (chat_id m) (default 0 (message_thread_id m)) = true
  /\ text m = MINUS :: u "5"
  /\ fst (get_income_today sample_day (storage (handle_message quiet_world ∅ m)) 42)
     = fst (get_income_today sample_day ∅ 42) + 10.
Proof.
  intros m.
  assert (Ha : is_allowed (chat_id m) (default 0 (message_thread_id m)) = true)
    by reflexivity.
  assert (Htext : text m = MINUS :: u "5") by reflexivity.
  destruct (leading_minus_is_income quiet_world ∅ m (u "5") Ha Htext)
    as (_ & _ & Htotal).
  split; [exact Ha|]. split; [exact Htext|]. exact Htotal.
Defined.
